(** * Event coincidence between LST-1 and MAGIC (magic-cta-pipe)

    Shallow embedding of [event_coincidence] from
    [magicctapipe/scripts/lst1_magic/lst1_magic_event_coincidence.py]
    and of the properties that the specification states about it.

    Conventions of the embedding.
    - numpy [int64] values are integers of [Z]; every [int64] addition and
      subtraction of the script goes through [Int64.add] / [Int64.sub],
      which wrap around modulo 2^64.
    - Python [decimal.Decimal] values are pairs (signed coefficient,
      exponent) with the default context (28 digits, ROUND_HALF_EVEN).
    - numpy [float64] values ([ndarray.mean], [np.average], [np.round])
      are carried as exact rationals of [Q]; rounding to an integer is
      round-half-to-even, as [np.round] does.
    - a Python exception is a value of [error]; code that can raise
      returns a [result]. *)

From Stdlib Require Import ZArith QArith Qpower List Bool String Ascii Lia.
Import ListNotations.

Open Scope Z_scope.

(** ** Python exceptions and results *)

Inductive error : Type :=
| IndexError
| ZeroDivisionError
| OverflowError
| InvalidOperation
| KeyError.

Inductive result (A : Type) : Type :=
| Ok (a : A)
| Raise (e : error).

Arguments Ok {A} a.
Arguments Raise {A} e.

Definition bind {A B : Type} (r : result A) (k : A -> result B) : result B :=
  match r with
  | Ok a => k a
  | Raise e => Raise e
  end.

Notation "x <- r ;; k" := (bind r (fun x => k))
  (at level 61, r at next level, right associativity).

Notation "' p <- r ;; k" := (bind r (fun x => let p := x in k))
  (at level 61, p pattern, r at next level, right associativity).

Fixpoint mapM {A B : Type} (f : A -> result B) (l : list A) : result (list B) :=
  match l with
  | [] => Ok []
  | a :: l' => b <- f a ;; bs <- mapM f l' ;; Ok (b :: bs)
  end.

(** ** numpy int64 *)

Module Int64.

Definition min_signed : Z := - 2 ^ 63.
Definition max_signed : Z := 2 ^ 63 - 1.

Definition in_range (z : Z) : Prop := min_signed <= z <= max_signed.

Definition in_rangeb (z : Z) : bool := (min_signed <=? z) && (z <=? max_signed).

(** Two's complement wrap-around of an integer to 64 bits. *)
Definition wrap (z : Z) : Z := (z + 2 ^ 63) mod 2 ^ 64 - 2 ^ 63.

Definition add (a b : Z) : Z := wrap (a + b).
Definition sub (a b : Z) : Z := wrap (a - b).

(** Conversion of a Python integer to an int64 array element. *)
Definition of_int (z : Z) : result Z :=
  if in_rangeb z then Ok z else Raise OverflowError.

Lemma in_rangeb_spec z : in_rangeb z = true <-> in_range z.
Proof.
  unfold in_rangeb, in_range.
  rewrite andb_true_iff, !Z.leb_le. tauto.
Qed.

Lemma wrap_in_range z : in_range z -> wrap z = z.
Proof.
  unfold in_range, min_signed, max_signed, wrap. intros H.
  rewrite Z.mod_small by lia. lia.
Qed.

Lemma wrap_range z : in_range (wrap z).
Proof.
  unfold in_range, min_signed, max_signed, wrap.
  pose proof (Z.mod_pos_bound (z + 2 ^ 63) (2 ^ 64) ltac:(lia)). lia.
Qed.

Lemma add_exact a b : in_range (a + b) -> add a b = a + b.
Proof. apply wrap_in_range. Qed.

Lemma sub_exact a b : in_range (a - b) -> sub a b = a - b.
Proof. apply wrap_in_range. Qed.

End Int64.

(** ** The coincidence test (lines 220-228 and 264-270)

    [times_lolim = timestamps_lst + time_offset - window_half_width]
    [times_uplim = timestamps_lst + time_offset + window_half_width]
    [mask = (timestamps_magic >= times_lolim[:, newaxis])
            & (timestamps_magic <= times_uplim[:, newaxis])] *)

Definition times_lolim (t1 time_offset window_half_width : Z) : Z :=
  Int64.sub (Int64.add t1 time_offset) window_half_width.

Definition times_uplim (t1 time_offset window_half_width : Z) : Z :=
  Int64.add (Int64.add t1 time_offset) window_half_width.

Definition coincident (t1 t2 time_offset window_half_width : Z) : bool :=
  (times_lolim t1 time_offset window_half_width <=? t2)
  && (t2 <=? times_uplim t1 time_offset window_half_width).

(** The N1 x N2 boolean matrix: one row per LST-1 event, one column per
    MAGIC event. *)
Definition coincidence_mask (timestamps_lst timestamps_magic : list Z)
    (time_offset window_half_width : Z) : list (list bool) :=
  map (fun t1 =>
         map (fun t2 => coincident t1 t2 time_offset window_half_width)
             timestamps_magic)
      timestamps_lst.

Definition count_true (l : list bool) : Z :=
  fold_right (fun (b : bool) n => if b then n + 1 else n) 0 l.

(** [np.count_nonzero] of a two-dimensional mask. *)
Definition count_nonzero (mask : list (list bool)) : Z :=
  fold_right (fun r n => count_true r + n) 0 mask.

Definition n_coincidence_at (timestamps_lst timestamps_magic : list Z)
    (time_offset window_half_width : Z) : Z :=
  count_nonzero
    (coincidence_mask timestamps_lst timestamps_magic
                      time_offset window_half_width).

(** ** Properties of the coincidence test *)

Lemma count_true_nonneg l : 0 <= count_true l.
Proof. induction l as [|[] l IH]; simpl; lia. Qed.

Lemma count_nonzero_nonneg m : 0 <= count_nonzero m.
Proof.
  induction m as [|r m IH]; simpl; [lia|].
  pose proof (count_true_nonneg r). lia.
Qed.

Lemma n_coincidence_at_nonneg l1 l2 o w : 0 <= n_coincidence_at l1 l2 o w.
Proof. apply count_nonzero_nonneg. Qed.

Lemma n_coincidence_at_single t1 t2 o w :
  n_coincidence_at [t1] [t2] o w = if coincident t1 t2 o w then 1 else 0.
Proof.
  unfold n_coincidence_at. simpl. destruct (coincident t1 t2 o w); reflexivity.
Qed.

Lemma coincident_exact t1 t2 o w :
  Int64.in_range (t1 + o) ->
  Int64.in_range (t1 + o - w) ->
  Int64.in_range (t1 + o + w) ->
  coincident t1 t2 o w = true <-> t1 + o - w <= t2 <= t1 + o + w.
Proof.
  intros H0 H1 H2. unfold coincident, times_lolim, times_uplim.
  rewrite (Int64.add_exact t1 o) by assumption.
  rewrite Int64.sub_exact, Int64.add_exact by assumption.
  rewrite andb_true_iff, !Z.leb_le. tauto.
Qed.

(** C1. With the sums t1 + o, t1 + o - w and t1 + o + w representable in
    int64 and a non-negative half width w, a pair (t1, t2) is counted as
    coincident under offset o exactly when t1 + o - w <= t2 <= t1 + o + w:
    an event at either edge matches, an event one nanosecond beyond
    either edge does not. *)
Theorem window_edges_inclusive (t1 t2 o w : Z) :
  0 <= w ->
  Int64.in_range (t1 + o) ->
  Int64.in_range (t1 + o - w) ->
  Int64.in_range (t1 + o + w) ->
  (coincident t1 t2 o w = true <-> t1 + o - w <= t2 <= t1 + o + w)
  /\ (n_coincidence_at [t1] [t2] o w = 1 <-> t1 + o - w <= t2 <= t1 + o + w)
  /\ coincident t1 (t1 + o - w) o w = true
  /\ coincident t1 (t1 + o + w) o w = true
  /\ coincident t1 (t1 + o - w - 1) o w = false
  /\ coincident t1 (t1 + o + w + 1) o w = false.
Proof.
  intros Hw H0 H1 H2.
  assert (E : forall t, coincident t1 t o w = true
                        <-> t1 + o - w <= t <= t1 + o + w)
    by (intro t; apply coincident_exact; assumption).
  assert (N : n_coincidence_at [t1] [t2] o w = 1
               <-> coincident t1 t2 o w = true).
  { rewrite n_coincidence_at_single.
    destruct (coincident t1 t2 o w); split; intro; (reflexivity || discriminate). }
  split; [apply E|].
  split; [rewrite N; apply E|].
  split; [apply E; lia|].
  split; [apply E; lia|].
  split; apply not_true_is_false; rewrite E; lia.
Qed.

Lemma window_edges_inclusive_witness :
  (coincident 1000000000000000000 999999999999993800 (-6500) 300 = true
   <-> 1000000000000000000 + (-6500) - 300 <= 999999999999993800
       <= 1000000000000000000 + (-6500) + 300)
  /\ coincident 1000000000000000000 (1000000000000000000 + (-6500) - 300 - 1)
                (-6500) 300 = false.
Proof.
  pose proof (window_edges_inclusive
                1000000000000000000 999999999999993800 (-6500) 300) as H.
  assert (Hw : 0 <= 300) by lia.
  assert (H0 : Int64.in_range (1000000000000000000 + (-6500)))
    by (unfold Int64.in_range, Int64.min_signed, Int64.max_signed; lia).
  assert (H1 : Int64.in_range (1000000000000000000 + (-6500) - 300))
    by (unfold Int64.in_range, Int64.min_signed, Int64.max_signed; lia).
  assert (H2 : Int64.in_range (1000000000000000000 + (-6500) + 300))
    by (unfold Int64.in_range, Int64.min_signed, Int64.max_signed; lia).
  destruct (H Hw H0 H1 H2) as (A & _ & _ & _ & B & _).
  split; [exact A | exact B].
Defined.

(** ** Rounding half to even

    [np.round], [ndarray.round] and the [Decimal] context all round to the
    nearest integer and send a tie to the even neighbour. *)

Definition round_half_even_div (n d : Z) : Z :=
  let q := n / d in
  let r := n mod d in
  if 2 * r <? d then q
  else if d <? 2 * r then q + 1
  else if Z.even q then q else q + 1.

Definition round_half_even (x : Q) : Z :=
  round_half_even_div (Qnum x) (Zpos (Qden x)).

(** ** Python [str] of an integer *)

Definition digit_char (r : Z) : ascii := ascii_of_N (Z.to_N (48 + r)).

Fixpoint str_digits (fuel : nat) (n : Z) (acc : string) : string :=
  match fuel with
  | O => acc
  | S f =>
      let acc' := String (digit_char (n mod 10)) acc in
      if n <? 10 then acc' else str_digits f (n / 10) acc'
  end.

Definition py_str (z : Z) : string :=
  let fuel := S (Z.to_nat (Z.log2 (Z.abs z))) in
  if z <? 0 then String "-" (str_digits fuel (- z) EmptyString)
  else str_digits fuel z EmptyString.

(** ** Python [decimal.Decimal] *)

Module PyDecimal.

(** The value of [mk c e] is c * 10^e. *)
Record t : Type := mk { coef : Z; exp : Z }.

(** Precision of the default context. *)
Definition prec : Z := 28.

Definition to_Q (d : t) : Q := inject_Z (coef d) * (10 # 1) ^ exp d.

Fixpoint ndigits_fuel (fuel : nat) (n : Z) : Z :=
  match fuel with
  | O => 1
  | S f => if n <? 10 then 1 else 1 + ndigits_fuel f (n / 10)
  end.

Definition ndigits (n : Z) : Z :=
  ndigits_fuel (Z.to_nat (Z.log2 (Z.abs n))) (Z.abs n).

(** Rounding of a result to the context precision (ROUND_HALF_EVEN). *)
Definition fix_prec (d : t) : t :=
  if Z.abs (coef d) <? 10 ^ prec then d
  else
    let k := ndigits (coef d) - prec in
    let c := round_half_even_div (coef d) (10 ^ k) in
    if Z.abs c <? 10 ^ prec then mk c (exp d + k)
    else mk (c / 10) (exp d + k + 1).

Definition mul (a b : t) : t :=
  fix_prec (mk (coef a * coef b) (exp a + exp b)).

Definition add (a b : t) : t :=
  let e := Z.min (exp a) (exp b) in
  fix_prec (mk (coef a * 10 ^ (exp a - e) + coef b * 10 ^ (exp b - e)) e).

(** [int(d)]: truncation toward zero. *)
Definition to_int (d : t) : Z :=
  if 0 <=? exp d then coef d * 10 ^ exp d
  else Z.quot (coef d) (10 ^ (- exp d)).

(** *** [Decimal(s)] for the numeric syntax
    [sign? (digits ("." digits?)? | "." digits) (("e"|"E") sign? digits)?]

    This is every text that [str] gives for a finite number.  The special
    values (nan, inf), blanks and underscores that [Decimal] also reads
    are not part of the embedding: such a text is rejected here. *)

Definition is_digit (c : ascii) : bool :=
  let n := N_of_ascii c in ((48 <=? n) && (n <=? 57))%N.

Definition digit_of (c : ascii) : Z := Z.of_N (N_of_ascii c) - 48.

(** Reads the longest run of digits: the value accumulated so far, the
    number of digits read and the rest of the string. *)
Fixpoint read_digits (s : string) (acc n : Z) : Z * Z * string :=
  match s with
  | String c s' =>
      if is_digit c then read_digits s' (10 * acc + digit_of c) (n + 1)
      else (acc, n, s)
  | EmptyString => (acc, n, s)
  end.

Definition read_sign (s : string) : bool * string :=
  match s with
  | String c s' =>
      if (c =? "-")%char then (true, s')
      else if (c =? "+")%char then (false, s')
      else (false, s)
  | EmptyString => (false, s)
  end.

Definition read_exponent (s : string) : option Z :=
  match s with
  | EmptyString => Some 0
  | String c s' =>
      if (c =? "e")%char || (c =? "E")%char then
        let '(neg, s1) := read_sign s' in
        match read_digits s1 0 0 with
        | (v, n, EmptyString) =>
            if 0 <? n then Some (if neg : bool then - v else v) else None
        | _ => None
        end
      else None
  end.

Definition read_fraction (s : string) (acc : Z) : Z * Z * string :=
  match s with
  | String c s' =>
      if (c =? ".")%char then read_digits s' acc 0 else (acc, 0, s)
  | EmptyString => (acc, 0, s)
  end.

Definition of_string (s : string) : result t :=
  let '(neg, s0) := read_sign s in
  let '(iv, ni, s1) := read_digits s0 0 0 in
  let '(v, nf, s2) := read_fraction s1 iv in
  if 0 <? ni + nf then
    match read_exponent s2 with
    | Some e => Ok (mk (if neg : bool then - v else v) (e - nf))
    | None => Raise InvalidOperation
    end
  else Raise InvalidOperation.

End PyDecimal.

(** ** Timestamp normalisation (lines 73-74, 164-166 and 176-180) *)

(** [SEC2NSEC = Decimal("1e9")] *)
Definition SEC2NSEC : PyDecimal.t := PyDecimal.mk 1 9.

(** LST-1: [Decimal(str(time)) * SEC2NSEC], then conversion to int64.
    The argument is [str(time)], the text of the timestamp in seconds. *)
Definition timestamp_lst (time_str : string) : result Z :=
  d <- PyDecimal.of_string time_str ;;
  Int64.of_int (PyDecimal.to_int (PyDecimal.mul d SEC2NSEC)).

(** MAGIC: [Decimal(str(time_sec)) * SEC2NSEC + Decimal(str(time_nanosec))],
    then conversion to int64. *)
Definition timestamp_magic (time_sec time_nanosec : Z) : result Z :=
  seconds <- PyDecimal.of_string (py_str time_sec) ;;
  nseconds <- PyDecimal.of_string (py_str time_nanosec) ;;
  Int64.of_int
    (PyDecimal.to_int (PyDecimal.add (PyDecimal.mul seconds SEC2NSEC) nseconds)).

(** ** Properties of the timestamp normalisation *)

Section DecimalFacts.

Import PyDecimal.

Lemma fix_prec_small d : Z.abs (coef d) < 10 ^ prec -> fix_prec d = d.
Proof.
  intros H. unfold fix_prec.
  destruct (Z.ltb_spec (Z.abs (coef d)) (10 ^ prec)); [reflexivity | lia].
Qed.

Lemma digit_char_spec r :
  0 <= r < 10 -> is_digit (digit_char r) = true /\ digit_of (digit_char r) = r.
Proof.
  intros H.
  assert (C : r = 0 \/ r = 1 \/ r = 2 \/ r = 3 \/ r = 4 \/
              r = 5 \/ r = 6 \/ r = 7 \/ r = 8 \/ r = 9) by lia.
  repeat (destruct C as [-> | C]; [split; reflexivity|]).
  subst r. split; reflexivity.
Qed.

Lemma digit_not_sign c :
  is_digit c = true -> (c =? "-")%char = false /\ (c =? "+")%char = false.
Proof.
  intros H. split; apply Ascii.eqb_neq; intros ->; discriminate H.
Qed.

Lemma str_digits_S f n acc :
  str_digits (S f) n acc
  = if n <? 10 then String (digit_char (n mod 10)) acc
    else str_digits f (n / 10) (String (digit_char (n mod 10)) acc).
Proof. reflexivity. Qed.

Lemma read_digits_str_digits f : forall n acc a k,
  0 <= n < 10 ^ Z.of_nat (S f) ->
  exists m, 0 < m /\
    read_digits (str_digits (S f) n acc) a k
    = read_digits acc (a * 10 ^ m + n) (k + m).
Proof.
  induction f as [|f IH]; intros n acc a k Hn.
  - assert (n < 10) by (change (10 ^ Z.of_nat 1) with 10 in Hn; lia).
    exists 1. split; [lia|].
    rewrite str_digits_S. destruct (Z.ltb_spec n 10); [|lia].
    rewrite Z.mod_small by lia.
    destruct (digit_char_spec n ltac:(lia)) as [D V].
    cbn [read_digits]. rewrite D, V. f_equal; lia.
  - rewrite str_digits_S.
    pose proof (Z.mod_pos_bound n 10 ltac:(lia)) as Hr.
    destruct (digit_char_spec (n mod 10) Hr) as [D V].
    destruct (Z.ltb_spec n 10).
    + exists 1. split; [lia|].
      cbn [read_digits]. rewrite D, V, Z.mod_small by lia. f_equal; lia.
    + assert (Hq : 0 <= n / 10 < 10 ^ Z.of_nat (S f)).
      { split; [apply Z.div_pos; lia|].
        apply Z.div_lt_upper_bound; [lia|].
        replace (Z.of_nat (S (S f))) with (Z.succ (Z.of_nat (S f))) in Hn by lia.
        rewrite Z.pow_succ_r in Hn by lia. lia. }
      destruct (IH (n / 10) (String (digit_char (n mod 10)) acc) a k Hq)
        as (m & Hm & E).
      exists (m + 1). split; [lia|].
      rewrite E. cbn [read_digits]. rewrite D, V.
      f_equal; [|lia].
      rewrite Z.pow_add_r, Z.pow_1_r by lia.
      pose proof (Z.div_mod n 10 ltac:(lia)). lia.
Qed.

Lemma str_digits_head f n acc :
  0 <= n ->
  exists c s, str_digits (S f) n acc = String c s /\ is_digit c = true.
Proof.
  revert n acc. induction f as [|f IH]; intros n acc Hn.
  - rewrite str_digits_S.
    pose proof (Z.mod_pos_bound n 10 ltac:(lia)) as Hr.
    destruct (digit_char_spec _ Hr) as [D _].
    destruct (n <? 10); cbn [str_digits]; eauto.
  - rewrite str_digits_S.
    pose proof (Z.mod_pos_bound n 10 ltac:(lia)) as Hr.
    destruct (digit_char_spec _ Hr) as [D _].
    destruct (n <? 10); [eauto|].
    apply IH. apply Z.div_pos; lia.
Qed.

Lemma log2_fuel n :
  0 <= n -> n < 10 ^ Z.of_nat (S (Z.to_nat (Z.log2 n))).
Proof.
  intros Hn.
  destruct (Z.eq_dec n 0) as [-> | Hz]; [reflexivity|].
  pose proof (Z.log2_nonneg n) as Hl.
  pose proof (Z.log2_spec n ltac:(lia)) as [_ Hu].
  rewrite Nat2Z.inj_succ, Z2Nat.id by lia.
  eapply Z.lt_le_trans; [exact Hu|].
  apply Z.pow_le_mono_l. lia.
Qed.

Lemma of_string_digits s v n :
  (exists c s', s = String c s' /\ is_digit c = true) ->
  read_digits s 0 0 = (v, n, EmptyString) ->
  0 < n ->
  of_string s = Ok (mk v 0).
Proof.
  intros (c & s' & -> & D) R Hn.
  unfold of_string, read_sign.
  destruct (digit_not_sign c D) as [-> ->].
  rewrite R. cbn [read_fraction read_exponent].
  replace (0 <? n + 0) with true by (symmetry; apply Z.ltb_lt; lia).
  try reflexivity; f_equal; f_equal; lia.
Qed.

Lemma of_string_py_str_nonneg z :
  0 <= z -> of_string (py_str z) = Ok (mk z 0).
Proof.
  intros Hz. unfold py_str.
  destruct (Z.ltb_spec z 0); [lia|].
  rewrite Z.abs_eq by lia.
  set (f := Z.to_nat (Z.log2 z)).
  destruct (read_digits_str_digits f z EmptyString 0 0) as (m & Hm & E).
  { split; [lia | apply log2_fuel; lia]. }
  apply of_string_digits with (n := m); [apply str_digits_head; lia | | lia].
  rewrite E. reflexivity.
Qed.

Lemma of_string_py_str z : of_string (py_str z) = Ok (mk z 0).
Proof.
  destruct (Z.ltb_spec z 0) as [Hneg | Hpos];
    [| apply of_string_py_str_nonneg; assumption].
  unfold py_str. destruct (Z.ltb_spec z 0); [|lia].
  rewrite Z.abs_neq by lia.
  set (f := Z.to_nat (Z.log2 (- z))).
  destruct (read_digits_str_digits f (- z) EmptyString 0 0) as (m & Hm & E).
  { split; [lia | apply log2_fuel; lia]. }
  unfold of_string. cbn [read_sign]. rewrite Ascii.eqb_refl.
  rewrite E. cbn [read_digits read_fraction read_exponent].
  replace (0 <? 0 + m + 0) with true by (symmetry; apply Z.ltb_lt; lia).
  try reflexivity; f_equal; f_equal; lia.
Qed.

Lemma mul_SEC2NSEC d :
  Z.abs (coef d) < 10 ^ prec ->
  mul d SEC2NSEC = mk (coef d) (exp d + 9).
Proof.
  intros H. unfold mul, SEC2NSEC. cbn [coef exp].
  rewrite Z.mul_1_r. apply fix_prec_small. exact H.
Qed.

Lemma to_int_nonneg_exp c e : 0 <= e -> to_int (mk c e) = c * 10 ^ e.
Proof.
  intros H. unfold to_int. cbn [coef exp].
  destruct (Z.leb_spec 0 e); [reflexivity | lia].
Qed.

(** The value of a decimal with exponent at least -9, scaled by 10^9,
    is the integer c * 10^(e + 9). *)
Lemma to_Q_scaled d :
  -9 <= exp d ->
  inject_Z (coef d * 10 ^ (exp d + 9)) == to_Q d * (10 # 1) ^ 9.
Proof.
  intros H. unfold to_Q.
  rewrite inject_Z_mult.
  rewrite (Zpower_Qpower 10 (exp d + 9)) by lia.
  change (inject_Z 10) with (10 # 1).
  rewrite (Qpower_plus (10 # 1) (exp d) 9) by discriminate.
  ring.
Qed.

Lemma int64_lt_prec z : Int64.in_range z -> Z.abs z < 10 ^ prec.
Proof.
  unfold Int64.in_range, Int64.min_signed, Int64.max_signed, prec. lia.
Qed.

End DecimalFacts.

Lemma round_half_even_div_exact n d : 0 < d -> round_half_even_div (n * d) d = n.
Proof.
  intros Hd. unfold round_half_even_div.
  rewrite Z.div_mul, Z.mod_mul by lia.
  destruct (Z.ltb_spec (2 * 0) d); [reflexivity | lia].
Qed.

Lemma round_half_even_integer (x : Q) (n : Z) :
  x == inject_Z n -> round_half_even x = n.
Proof.
  unfold Qeq, round_half_even. cbn [inject_Z Qnum Qden]. intros H.
  rewrite Z.mul_1_r in H. rewrite H.
  apply round_half_even_div_exact. lia.
Qed.

(** *** Plain decimal notation: integral digits, a point, fractional digits *)

Fixpoint all_digits (s : string) : bool :=
  match s with
  | EmptyString => true
  | String c s' => PyDecimal.is_digit c && all_digits s'
  end.

Fixpoint digits_val (s : string) (acc : Z) : Z :=
  match s with
  | EmptyString => acc
  | String c s' => digits_val s' (10 * acc + PyDecimal.digit_of c)
  end.

Definition string_len (s : string) : Z := Z.of_nat (String.length s).

Lemma read_digits_app a : forall rest acc n,
  all_digits a = true ->
  PyDecimal.read_digits (a ++ rest)%string acc n
  = PyDecimal.read_digits rest (digits_val a acc) (n + string_len a).
Proof.
  induction a as [|c a IH]; intros rest acc n H.
  - cbn. f_equal. unfold string_len. cbn. lia.
  - cbn in H. apply andb_true_iff in H as [D H].
    cbn [append PyDecimal.read_digits digits_val]. rewrite D, IH by assumption.
    f_equal. unfold string_len. cbn [String.length]. lia.
Qed.

Lemma string_app_empty_r (s : string) : (s ++ EmptyString)%string = s.
Proof. induction s as [|c s IH]; cbn; [reflexivity | now rewrite IH]. Qed.

(** A text made of a non-empty run of digits, a point and k further
    digits is the decimal with exponent -k. *)
Lemma of_string_plain (c : ascii) (a b : string) :
  PyDecimal.is_digit c = true ->
  all_digits a = true ->
  all_digits b = true ->
  PyDecimal.of_string (String c a ++ String "." b)%string
  = Ok (PyDecimal.mk (digits_val b (digits_val (String c a) 0))
                     (- string_len b)).
Proof.
  intros Dc Da Db.
  assert (Dca : all_digits (String c a) = true) by (cbn; now rewrite Dc, Da).
  unfold PyDecimal.of_string.
  replace (PyDecimal.read_sign (String c a ++ String "." b)%string)
    with (false, (String c a ++ String "." b)%string).
  2:{ cbn. destruct (digit_not_sign c Dc) as [-> ->]. reflexivity. }
  rewrite read_digits_app by assumption.
  cbn [PyDecimal.read_digits].
  change (PyDecimal.is_digit ".") with false. cbn iota.
  cbn [PyDecimal.read_fraction]. rewrite Ascii.eqb_refl.
  rewrite <- (string_app_empty_r b) at 1.
  rewrite read_digits_app by assumption.
  cbn [PyDecimal.read_digits PyDecimal.read_exponent].
  assert (0 < string_len (String c a))
    by (unfold string_len; cbn [String.length]; lia).
  assert (0 <= string_len b) by (unfold string_len; lia).
  replace (0 <? 0 + string_len (String c a) + (0 + string_len b)) with true
    by (symmetry; apply Z.ltb_lt; lia).
  f_equal.
Qed.

Example timestamp_lst_example :
  timestamp_lst "1620000000.1234567" = Ok 1620000000123456700.
Proof. reflexivity. Qed.

(** C2. A decimal text with at most seven fractional digits is turned by
    the LST-1 normaliser into exactly its value times 10^9, which is an
    integer and hence its own rounding; the MAGIC normaliser returns
    exactly seconds * 10^9 + nanoseconds.  Both results are assumed to
    fit in int64. *)
Theorem timestamps_exact (s : string) (d : PyDecimal.t)
    (time_sec time_nanosec : Z) :
  PyDecimal.of_string s = Ok d ->
  -7 <= PyDecimal.exp d ->
  Int64.in_range (PyDecimal.coef d * 10 ^ (PyDecimal.exp d + 9)) ->
  Int64.in_range time_sec ->
  Int64.in_range time_nanosec ->
  Int64.in_range (time_sec * 10 ^ 9 + time_nanosec) ->
  (exists n : Z,
      timestamp_lst s = Ok n
      /\ inject_Z n == PyDecimal.to_Q d * (10 # 1) ^ 9
      /\ n = round_half_even (PyDecimal.to_Q d * (10 # 1) ^ 9))
  /\ timestamp_magic time_sec time_nanosec
     = Ok (time_sec * 10 ^ 9 + time_nanosec).
Proof.
  intros Hs He Hr Hsec Hnsec Hsum. split.
  - exists (PyDecimal.coef d * 10 ^ (PyDecimal.exp d + 9)).
    assert (Hc : Z.abs (PyDecimal.coef d) < 10 ^ PyDecimal.prec).
    { apply int64_lt_prec in Hr.
      assert (1 <= 10 ^ (PyDecimal.exp d + 9)) by (apply Z.pow_le_mono_r with (b := 0); lia).
      rewrite Z.abs_mul in Hr.
      rewrite (Z.abs_eq (10 ^ _)) in Hr by lia.
      pose proof (Z.abs_nonneg (PyDecimal.coef d)). nia. }
    pose proof (to_Q_scaled d ltac:(lia)) as E.
    split; [|split].
    + unfold timestamp_lst. rewrite Hs. cbn [bind].
      rewrite mul_SEC2NSEC by exact Hc.
      rewrite to_int_nonneg_exp by lia.
      unfold Int64.of_int.
      apply Int64.in_rangeb_spec in Hr. now rewrite Hr.
    + exact E.
    + symmetry. apply round_half_even_integer. symmetry. exact E.
  - unfold timestamp_magic. rewrite !of_string_py_str. cbn [bind].
    rewrite mul_SEC2NSEC by (apply int64_lt_prec; exact Hsec).
    unfold PyDecimal.add. cbn [PyDecimal.coef PyDecimal.exp].
    change (Z.min (0 + 9) 0) with 0.
    replace (time_sec * 10 ^ (0 + 9 - 0) + time_nanosec * 10 ^ (0 - 0))
      with (time_sec * 10 ^ 9 + time_nanosec)
      by (change (10 ^ (0 - 0)) with 1; change (0 + 9 - 0) with 9; lia).
    rewrite fix_prec_small by (apply int64_lt_prec; exact Hsum).
    rewrite to_int_nonneg_exp by lia.
    rewrite Z.pow_0_r, Z.mul_1_r.
    unfold Int64.of_int.
    apply Int64.in_rangeb_spec in Hsum. now rewrite Hsum.
Qed.

Lemma timestamps_exact_witness :
  (exists n : Z,
      timestamp_lst "1620000000.1234567" = Ok n
      /\ inject_Z n == PyDecimal.to_Q (PyDecimal.mk 16200000001234567 (-7)) * (10 # 1) ^ 9
      /\ n = round_half_even
               (PyDecimal.to_Q (PyDecimal.mk 16200000001234567 (-7)) * (10 # 1) ^ 9))
  /\ timestamp_magic 1620000000 123456700
     = Ok (1620000000 * 10 ^ 9 + 123456700).
Proof.
  apply (timestamps_exact "1620000000.1234567"
           (PyDecimal.mk 16200000001234567 (-7)) 1620000000 123456700).
  - reflexivity.
  - cbn. lia.
  - unfold Int64.in_range, Int64.min_signed, Int64.max_signed. cbn. lia.
  - unfold Int64.in_range, Int64.min_signed, Int64.max_signed. lia.
  - unfold Int64.in_range, Int64.min_signed, Int64.max_signed. lia.
  - unfold Int64.in_range, Int64.min_signed, Int64.max_signed. lia.
Defined.

(** ** The offset grid (lines 76-77 and 139-148) *)

Definition TIME_ACCURACY : Z := 100.

(** Ceiling of a / b for positive b. *)
Definition cdiv (a b : Z) : Z := - ((- a) / b).

(** [np.arange(start, stop, step)]: ceil((stop - start) / step) values
    start, start + step, ... *)
Definition arange (start stop step : Z) : list Z :=
  map (fun i => start + Z.of_nat i * step)
      (seq 0 (Z.to_nat (cdiv (stop - start) step))).

(** ** Array helpers *)

(** Boolean-mask indexing [a[mask]]. *)
Fixpoint select {A : Type} (mask : list bool) (a : list A) : list A :=
  match mask, a with
  | b :: mask', x :: a' => if b then x :: select mask' a' else select mask' a'
  | _, _ => []
  end.

Definition sum (l : list Z) : Z := fold_right Z.add 0 l.

Definition list_max (l : list Z) : Z :=
  match l with
  | [] => 0
  | x :: l' => fold_left Z.max l' x
  end.

(** [a[0]] and [a[-1]] *)
Definition first (a : list Z) : result Z :=
  match a with
  | [] => Raise IndexError
  | x :: _ => Ok x
  end.

Definition final (a : list Z) : result Z :=
  match rev a with
  | [] => Raise IndexError
  | x :: _ => Ok x
  end.

(** [ndarray.mean()] of an integer array, as an exact rational.  numpy
    returns nan for an empty array; the script only takes the mean of a
    non-empty selection. *)
Definition mean (l : list Z) : Q :=
  (inject_Z (sum l) / inject_Z (Z.of_nat (List.length l)))%Q.

Fixpoint dot (a weights : list Z) : Z :=
  match a, weights with
  | x :: a', c :: weights' => x * c + dot a' weights'
  | _, _ => 0
  end.

(** [np.average(a, weights=weights)] *)
Definition average (a weights : list Z) : result Q :=
  let scl := sum weights in
  if scl =? 0 then Raise ZeroDivisionError
  else Ok (inject_Z (dot a weights) / inject_Z scl)%Q.

(** ** Window pre-filter (lines 188-204) *)

Definition time_lolim (timestamps_lst time_offsets : list Z)
    (window_half_width : Z) : result Z :=
  t <- first timestamps_lst ;;
  o <- first time_offsets ;;
  Ok (Int64.sub (Int64.add t o) window_half_width).

Definition time_uplim (timestamps_lst time_offsets : list Z)
    (window_half_width : Z) : result Z :=
  t <- final timestamps_lst ;;
  o <- final time_offsets ;;
  Ok (Int64.add (Int64.add t o) window_half_width).

Definition window_mask (timestamps_magic : list Z) (lolim uplim : Z) : list bool :=
  map (fun t => (lolim <=? t) && (t <=? uplim)) timestamps_magic.

(** ** Offset scan (lines 216-244) *)

Definition scan (timestamps_lst timestamps_magic time_offsets : list Z)
    (window_half_width : Z) : list Z :=
  map (fun time_offset =>
         n_coincidence_at timestamps_lst timestamps_magic
                          time_offset window_half_width)
      time_offsets.

(** Python [any] over the list of counts. *)
Definition any (n_coincidences : list Z) : bool :=
  existsb (fun n => negb (n =? 0)) n_coincidences.

(** [time_offsets[n_coincidences == n_coincidences.max()]] *)
Definition maximizing_offsets (time_offsets n_coincidences : list Z) : list Z :=
  select (map (fun n => n =? list_max n_coincidences) n_coincidences)
         time_offsets.

Definition offset_at_max (time_offsets n_coincidences : list Z) : Q :=
  mean (maximizing_offsets time_offsets n_coincidences).

(** ** Offset refinement (lines 250-259) *)

Definition two_windows (window_half_width : Z) : Z :=
  Int64.wrap (2 * window_half_width).

Definition offset_lolim (at_max : Q) (window_half_width : Z) : Q :=
  (at_max - inject_Z (two_windows window_half_width))%Q.

Definition offset_uplim (at_max : Q) (window_half_width : Z) : Q :=
  (at_max + inject_Z (two_windows window_half_width))%Q.

(** [(time_offsets >= np.round(offset_lolim))
     & (time_offsets <= np.round(offset_uplim))] *)
Definition average_region (time_offsets : list Z) (at_max : Q)
    (window_half_width : Z) : list bool :=
  map (fun o =>
         (round_half_even (offset_lolim at_max window_half_width) <=? o)
         && (o <=? round_half_even (offset_uplim at_max window_half_width)))
      time_offsets.

Definition average_offset (time_offsets n_coincidences : list Z)
    (window_half_width : Z) : result Z :=
  let at_max := offset_at_max time_offsets n_coincidences in
  let mask := average_region time_offsets at_max window_half_width in
  avg <- average (select mask time_offsets) (select mask n_coincidences) ;;
  Ok (round_half_even avg).

(** ** Facts on the array helpers *)

Lemma fold_left_max_ge l : forall x,
  x <= fold_left Z.max l x /\ (forall c, In c l -> c <= fold_left Z.max l x).
Proof.
  induction l as [|y l IH]; intros x; cbn [fold_left].
  - split; [lia | intros c []].
  - destruct (IH (Z.max x y)) as [H1 H2]. split; [lia|].
    intros c [<- | Hc]; [lia | auto].
Qed.

Lemma fold_left_max_in l : forall x,
  fold_left Z.max l x = x \/ In (fold_left Z.max l x) l.
Proof.
  induction l as [|y l IH]; intros x; cbn [fold_left]; [now left|].
  destruct (IH (Z.max x y)) as [E | I]; [|right; now right].
  rewrite E. destruct (Z.max_spec x y) as [[_ ->] | [_ ->]];
    [right; now left | now left].
Qed.

Lemma list_max_ge l c : In c l -> c <= list_max l.
Proof.
  destruct l as [|x l]; [intros []|]. cbn [list_max].
  destruct (fold_left_max_ge l x) as [H1 H2].
  intros [<- | Hc]; auto.
Qed.

Lemma list_max_in l : l <> [] -> In (list_max l) l.
Proof.
  destruct l as [|x l]; [congruence|]. intros _. cbn [list_max].
  destruct (fold_left_max_in l x) as [-> | I]; [now left | now right].
Qed.

Lemma select_In {A} (mask : list bool) : forall (a : list A) (x : A),
  In x (select mask a)
  <-> exists i, nth_error mask i = Some true /\ nth_error a i = Some x.
Proof.
  induction mask as [|b mask IH]; intros a x.
  - cbn. split; [intros [] | intros ([|i] & H & _); discriminate].
  - destruct a as [|y a].
    + cbn. split; [intros [] | intros ([|i] & _ & H); discriminate].
    + cbn [select]. destruct b.
      * cbn [In]. rewrite IH. split.
        -- intros [-> | (i & H1 & H2)]; [exists 0%nat | exists (S i)]; auto.
        -- intros ([|i] & H1 & H2); cbn in H1, H2;
             [left; congruence | right; eauto].
      * rewrite IH. split.
        -- intros (i & H1 & H2). exists (S i). auto.
        -- intros ([|i] & H1 & H2); cbn in H1, H2; [discriminate | eauto].
Qed.

Lemma sum_app l1 l2 : sum (l1 ++ l2) = sum l1 + sum l2.
Proof. induction l1 as [|x l1 IH]; cbn; [reflexivity | unfold sum in *; lia]. Qed.

Lemma sum_lower a l :
  (forall e, In e l -> a <= e) -> a * Z.of_nat (List.length l) <= sum l.
Proof.
  induction l as [|x l IH]; intros H; [cbn; lia|].
  cbn [List.length sum fold_right]. fold (sum l).
  pose proof (H x (or_introl eq_refl)).
  assert (a * Z.of_nat (List.length l) <= sum l)
    by (apply IH; intros e He; apply H; now right).
  lia.
Qed.

Lemma sum_upper b l :
  (forall e, In e l -> e <= b) -> sum l <= b * Z.of_nat (List.length l).
Proof.
  induction l as [|x l IH]; intros H; [cbn; lia|].
  cbn [List.length sum fold_right]. fold (sum l).
  pose proof (H x (or_introl eq_refl)).
  assert (sum l <= b * Z.of_nat (List.length l))
    by (apply IH; intros e He; apply H; now right).
  lia.
Qed.

(** Strictly increasing lists, as produced by [arange] with a positive
    step. *)
Inductive increasing : list Z -> Prop :=
| increasing_nil : increasing []
| increasing_cons x l :
    (forall y, In y l -> x < y) -> increasing l -> increasing (x :: l).

Lemma increasing_select mask : forall l,
  increasing l -> increasing (select mask l).
Proof.
  induction mask as [|b mask IH]; intros l H; [constructor|].
  destruct l as [|x l]; [constructor|].
  inversion H as [|? ? Hx Hl]; subst. cbn [select].
  destruct b; [|auto].
  constructor; [|auto].
  intros y Hy. apply Hx.
  apply select_In in Hy as (i & _ & Hi). eapply nth_error_In, Hi.
Qed.

Lemma increasing_last x l :
  increasing (x :: l) -> forall e, In e (x :: l) -> e <= last (x :: l) 0.
Proof.
  revert x. induction l as [|y l IH]; intros x H e He.
  - destruct He as [<- | []]. cbn. lia.
  - inversion H as [|? ? Hx Hl]; subst.
    change (last (x :: y :: l) 0) with (last (y :: l) 0).
    destruct He as [<- | He].
    + pose proof (Hx y (or_introl eq_refl)).
      pose proof (IH y Hl y (or_introl eq_refl)). lia.
    + apply IH; assumption.
Qed.

Lemma increasing_sum_bounds x y l :
  increasing (x :: y :: l) ->
  x * Z.of_nat (List.length (x :: y :: l)) < sum (x :: y :: l)
  /\ sum (x :: y :: l)
     < last (x :: y :: l) 0 * Z.of_nat (List.length (x :: y :: l)).
Proof.
  intros H. inversion H as [|? ? Hx Hl]; subst.
  pose proof (Hx y (or_introl eq_refl)) as Hxy.
  split.
  - assert (x * Z.of_nat (List.length l) <= sum l).
    { apply sum_lower. intros e He.
      assert (x < e) by (apply Hx; now right). lia. }
    cbn [List.length sum fold_right]. fold (sum l). lia.
  - set (z := last (x :: y :: l) 0).
    assert (Hz : forall e, In e (x :: y :: l) -> e <= z)
      by (apply increasing_last; exact H).
    assert (sum (y :: l) <= z * Z.of_nat (List.length (y :: l))).
    { apply sum_upper. intros e He. apply Hz. now right. }
    assert (x < z).
    { pose proof (Hz y (or_intror (or_introl eq_refl))). lia. }
    change (sum (x :: y :: l)) with (x + sum (y :: l)).
    change (List.length (x :: y :: l)) with (S (List.length (y :: l))).
    lia.
Qed.

Lemma increasing_arange start stop step :
  0 < step -> increasing (arange start stop step).
Proof.
  intros Hs. unfold arange.
  generalize (Z.to_nat (cdiv (stop - start) step)) as n.
  generalize 0%nat as s.
  intros s n. revert s. induction n as [|n IH]; intros s; cbn [seq map].
  - constructor.
  - constructor; [|apply IH].
    intros y Hy. apply in_map_iff in Hy as (i & <- & Hi).
    apply in_seq in Hi. nia.
Qed.

Lemma mean_times_length l :
  l <> [] ->
  (mean l * inject_Z (Z.of_nat (List.length l)) == inject_Z (sum l))%Q.
Proof.
  intros H. unfold mean.
  assert (N : ~ (inject_Z (Z.of_nat (List.length l)) == 0)%Q).
  { destruct l; [congruence|]. unfold Qeq. cbn. lia. }
  field. exact N.
Qed.

Lemma mean_single o : (mean [o] == inject_Z o)%Q.
Proof.
  unfold mean. cbn [sum fold_right List.length].
  rewrite Z.add_0_r. change (inject_Z (Z.of_nat 1)) with 1%Q. field.
Qed.

Lemma mean_between x y l :
  increasing (x :: y :: l) ->
  (inject_Z x < mean (x :: y :: l) /\
   mean (x :: y :: l) < inject_Z (last (x :: y :: l) 0%Z))%Q.
Proof.
  intros H. destruct (increasing_sum_bounds x y l H) as [Hlo Hhi].
  unfold mean.
  set (n := Z.of_nat (List.length (x :: y :: l))) in *.
  assert (Hn : (0 < inject_Z n)%Q).
  { change 0%Q with (inject_Z 0). rewrite <- Zlt_Qlt. subst n. cbn [List.length]. lia. }
  split.
  - apply Qlt_shift_div_l; [exact Hn|].
    rewrite <- inject_Z_mult, <- Zlt_Qlt. exact Hlo.
  - apply Qlt_shift_div_r; [exact Hn|].
    rewrite <- inject_Z_mult, <- Zlt_Qlt. exact Hhi.
Qed.

(** ** Tie-break of the scan *)

(** Index [i] holds a largest count. *)
Definition attains_max (n_coincidences : list Z) (i : nat) : Prop :=
  exists c, nth_error n_coincidences i = Some c
            /\ forall c', In c' n_coincidences -> c' <= c.

Lemma maximizing_offsets_spec time_offsets n_coincidences o :
  In o (maximizing_offsets time_offsets n_coincidences)
  <-> exists i, nth_error time_offsets i = Some o
                /\ attains_max n_coincidences i.
Proof.
  unfold maximizing_offsets, attains_max. rewrite select_In.
  split.
  - intros (i & Hm & Ho). exists i. split; [exact Ho|].
    rewrite nth_error_map in Hm.
    destruct (nth_error n_coincidences i) as [c|] eqn:Hc; [|discriminate].
    cbn in Hm. injection Hm as Hm. apply Z.eqb_eq in Hm.
    exists c. split; [reflexivity|].
    intros c' Hc'. rewrite Hm. apply list_max_ge, Hc'.
  - intros (i & Ho & c & Hc & Hmax). exists i. split; [|exact Ho].
    rewrite nth_error_map, Hc. cbn. f_equal. apply Z.eqb_eq.
    assert (In c n_coincidences) by (eapply nth_error_In, Hc).
    assert (n_coincidences <> []) by (intros ->; contradiction).
    pose proof (list_max_ge _ _ H).
    pose proof (Hmax _ (list_max_in _ H0)). lia.
Qed.

Lemma maximizing_offsets_nonempty time_offsets n_coincidences :
  List.length time_offsets = List.length n_coincidences ->
  n_coincidences <> [] ->
  maximizing_offsets time_offsets n_coincidences <> [].
Proof.
  intros Hlen Hne.
  destruct (In_nth_error _ _ (list_max_in _ Hne)) as (i & Hi).
  assert (Hlt : (i < List.length time_offsets)%nat).
  { rewrite Hlen. apply nth_error_Some. congruence. }
  destruct (nth_error time_offsets i) as [o|] eqn:Ho;
    [|apply nth_error_Some in Hlt; contradiction].
  assert (In o (maximizing_offsets time_offsets n_coincidences)).
  { apply maximizing_offsets_spec. exists i. split; [exact Ho|].
    exists (list_max n_coincidences). split; [exact Hi|].
    intros c' Hc'. apply list_max_ge, Hc'. }
  intros E. rewrite E in H. contradiction.
Qed.

(** C3. The maximizing offsets are exactly the offsets whose count is
    largest, and the offset at max is their arithmetic mean: it is the
    offset itself when there is one of them and, on a strictly increasing
    grid with at least two of them, it lies strictly between the first
    and the last. *)
Theorem tie_break_is_mean (time_offsets n_coincidences : list Z) :
  List.length time_offsets = List.length n_coincidences ->
  n_coincidences <> [] ->
  let ms := maximizing_offsets time_offsets n_coincidences in
  let at_max := offset_at_max time_offsets n_coincidences in
  (forall o, In o ms <-> exists i, nth_error time_offsets i = Some o
                                   /\ attains_max n_coincidences i)
  /\ ms <> []
  /\ (at_max * inject_Z (Z.of_nat (List.length ms)) == inject_Z (sum ms))%Q
  /\ (forall o, ms = [o] -> (at_max == inject_Z o)%Q)
  /\ (increasing time_offsets -> (2 <= List.length ms)%nat ->
      (inject_Z (hd 0%Z ms) < at_max /\ at_max < inject_Z (last ms 0%Z))%Q).
Proof.
  intros Hlen Hne ms at_max.
  assert (Hms : ms <> [])
    by (apply maximizing_offsets_nonempty; assumption).
  split; [intro o; apply maximizing_offsets_spec|].
  split; [exact Hms|].
  split; [apply mean_times_length; exact Hms|].
  split.
  - intros o E. unfold at_max, offset_at_max. fold ms. rewrite E.
    apply mean_single.
  - intros Hinc H2. unfold at_max, offset_at_max. fold ms.
    assert (Hi : increasing ms) by (apply increasing_select; exact Hinc).
    destruct ms as [|x [|y l]]; cbn in H2; try lia.
    apply mean_between. exact Hi.
Qed.

Lemma tie_break_is_mean_witness :
  let at_max := offset_at_max [0; 100; 200; 300] [2; 5; 1; 5] in
  (at_max == inject_Z 200)%Q
  /\ (inject_Z 100 < at_max)%Q /\ (at_max < inject_Z 300)%Q.
Proof.
  destruct (tie_break_is_mean [0; 100; 200; 300] [2; 5; 1; 5])
    as (_ & _ & Hm & _ & Hb).
  - reflexivity.
  - discriminate.
  - split.
    + cbn in Hm. apply (Qmult_inj_r _ _ (inject_Z 2)); [discriminate|].
      rewrite Hm. reflexivity.
    + apply Hb.
      * repeat constructor; cbn; intuition lia.
      * cbn. lia.
Defined.

(** Lines 244-272: the refined offset and the mask of the coincidence
    test run again at that offset. *)
Definition refine (timestamps_lst timestamps_magic time_offsets
    n_coincidences : list Z) (window_half_width : Z)
    : result (Z * list (list bool)) :=
  avg <- average_offset time_offsets n_coincidences window_half_width ;;
  Ok (avg,
      coincidence_mask timestamps_lst timestamps_magic avg window_half_width).

(** ** Event tables

    An LST-1 event carries the text [str(time)] of its timestamp, a MAGIC
    event its two integer time fields.  [params] stands for the common
    parameter columns, which the script copies without reading them. *)

Record lst_event : Type := {
  lst_obs_id : Z;
  lst_event_id : Z;
  lst_tel_id : Z;
  lst_timestamp : string;
  lst_params : list Z
}.

Record magic_event : Type := {
  magic_obs_id : Z;
  magic_event_id : Z;
  magic_tel_id : Z;
  time_sec : Z;
  time_nanosec : Z;
  magic_params : list Z
}.

(** A row of [event_data]: the index (obs_id_magic, event_id_magic,
    tel_id) and the columns.  The timestamp column is kept as the integer
    nanosecond count it is computed from; a missing value (NaN) of
    obs_id_lst or event_id_lst is [None]. *)
Record row : Type := {
  obs_id_magic : Z;
  event_id_magic : Z;
  tel_id : Z;
  timestamp : Z;
  obs_id_lst : option Z;
  event_id_lst : option Z;
  params : list Z
}.

(** [TEL_NAMES = {1: "LST-1", 2: "MAGIC-I", 3: "MAGIC-II"}] *)
Definition TEL_NAMES (tel : Z) : result string :=
  if tel =? 1 then Ok "LST-1"%string
  else if tel =? 2 then Ok "MAGIC-I"%string
  else if tel =? 3 then Ok "MAGIC-II"%string
  else Raise KeyError.

(** ** Matched pairs (lines 280-298) *)

Fixpoint true_positions (from : nat) (r : list bool) : list nat :=
  match r with
  | [] => []
  | b :: r' =>
      if b then from :: true_positions (S from) r'
      else true_positions (S from) r'
  end.

Fixpoint where_from (from : nat) (mask : list (list bool)) : list (nat * nat) :=
  match mask with
  | [] => []
  | r :: mask' =>
      map (fun j => (from, j)) (true_positions 0 r) ++ where_from (S from) mask'
  end.

(** [np.where(mask)]: the (row, column) indices of the true cells, row by
    row. *)
Definition np_where (mask : list (list bool)) : list (nat * nat) :=
  where_from 0 mask.

(** The LST-1 rows kept for a telescope: one per matched pair, indexed by
    the MAGIC identifiers of the pair. *)
Definition rows_lst (event_data_lst : list lst_event) (timestamps_lst : list Z)
    (df_magic : list magic_event) (pairs : list (nat * nat)) : list row :=
  flat_map
    (fun '(i, j) =>
       match nth_error event_data_lst i, nth_error timestamps_lst i,
             nth_error df_magic j with
       | Some e, Some t, Some m =>
           [{| obs_id_magic := magic_obs_id m;
               event_id_magic := magic_event_id m;
               tel_id := lst_tel_id e;
               timestamp := t;
               obs_id_lst := Some (lst_obs_id e);
               event_id_lst := Some (lst_event_id e);
               params := lst_params e |}]
       | _, _, _ => []
       end)
    pairs.

(** The LST-1 event written on MAGIC row [j] by
    [df_magic.loc[multi_indices_magic, ...] = ...]; a later pair
    overwrites an earlier one. *)
Definition assigned (pairs : list (nat * nat)) (j : nat) : option nat :=
  fold_left (fun acc '(i, j') => if Nat.eqb j j' then Some i else acc)
            pairs None.

Definition rows_magic (event_data_lst : list lst_event)
    (df_magic : list magic_event) (timestamps_magic : list Z)
    (pairs : list (nat * nat)) : list row :=
  map
    (fun '(j, (m, t)) =>
       let e := match assigned pairs j with
                | Some i => nth_error event_data_lst i
                | None => None
                end in
       {| obs_id_magic := magic_obs_id m;
          event_id_magic := magic_event_id m;
          tel_id := magic_tel_id m;
          timestamp := t;
          obs_id_lst := option_map lst_obs_id e;
          event_id_lst := option_map lst_event_id e;
          params := magic_params m |})
    (combine (seq 0 (List.length df_magic)) (combine df_magic timestamps_magic)).

(** ** One pass of the loop over the MAGIC telescopes (lines 171-327) *)

Record telescope_data : Type := {
  df_lst : list row;
  df_magic : list row;
  tel_average_offset : Z;
  n_events_at_avg : Z;
  n_events_magic : Z;
  n_coincidences : list Z;
  final_mask : list (list bool)
}.

Inductive telescope_outcome : Type :=
| NoEvents               (* "No ... events are found. Skipping..." *)
| NoCoincidence          (* "No coincident events are found. Skipping..." *)
| Coincidence (d : telescope_data).

Definition process_telescope (window_half_width : Z) (time_offsets : list Z)
    (event_data_lst : list lst_event) (timestamps_lst : list Z)
    (event_data_magic : list magic_event) (tel : Z)
    : result telescope_outcome :=
  _ <- TEL_NAMES tel ;;
  let magic := filter (fun m => magic_tel_id m =? tel) event_data_magic in
  timestamps_magic <-
    mapM (fun m => timestamp_magic (time_sec m) (time_nanosec m)) magic ;;
  lolim <- time_lolim timestamps_lst time_offsets window_half_width ;;
  uplim <- time_uplim timestamps_lst time_offsets window_half_width ;;
  let mask := window_mask timestamps_magic lolim uplim in
  let n_magic := count_true mask in
  if n_magic =? 0 then Ok NoEvents
  else
    let magic := select mask magic in
    let timestamps_magic := select mask timestamps_magic in
    let counts :=
      scan timestamps_lst timestamps_magic time_offsets window_half_width in
    if negb (any counts) then Ok NoCoincidence
    else
      '(avg, mask) <- refine timestamps_lst timestamps_magic time_offsets
                             counts window_half_width ;;
      let pairs := np_where mask in
      Ok (Coincidence
            {| df_lst := rows_lst event_data_lst timestamps_lst magic pairs;
               df_magic := rows_magic event_data_lst magic timestamps_magic pairs;
               tel_average_offset := avg;
               n_events_at_avg := count_nonzero mask;
               n_events_magic := n_magic;
               n_coincidences := counts;
               final_mask := mask |}).

(** ** The loop over the telescopes and the merged table (lines 150-153,
    168-171 and 301-327) *)

(** One row of [features]; the mean pointing directions and the mean
    timestamp of the row are left out. *)
Record feature : Type := {
  coincidence_id : Z;
  feature_window_half_width : Z;
  feature_average_offset : Z;
  n_coincidence : Z;
  feature_n_events_magic : Z
}.

Record tables : Type := {
  event_data : list row;
  features : list feature;
  profiles : list (Z * list Z)
}.

Definition no_tables : tables :=
  {| event_data := []; features := []; profiles := [] |}.

Fixpoint insert_unique (x : Z) (l : list Z) : list Z :=
  match l with
  | [] => [x]
  | y :: l' =>
      if x <? y then x :: l
      else if x =? y then l
      else y :: insert_unique x l'
  end.

(** [np.unique]: the distinct values in increasing order. *)
Definition np_unique (l : list Z) : list Z := fold_right insert_unique [] l.

Definition add_telescope (window_half_width tel : Z) (d : telescope_data)
    (t : tables) : tables :=
  {| event_data := event_data t ++ df_lst d ++ df_magic d;
     features :=
       features t ++
       [{| coincidence_id := 10 + tel;
           feature_window_half_width := window_half_width;
           feature_average_offset := tel_average_offset d;
           n_coincidence := n_events_at_avg d;
           feature_n_events_magic := n_events_magic d |}];
     profiles := profiles t ++ [(10 + tel, n_coincidences d)] |}.

Fixpoint telescopes_loop (window_half_width : Z) (time_offsets : list Z)
    (event_data_lst : list lst_event) (timestamps_lst : list Z)
    (event_data_magic : list magic_event) (tel_ids : list Z) (t : tables)
    : result tables :=
  match tel_ids with
  | [] => Ok t
  | tel :: tel_ids' =>
      out <- process_telescope window_half_width time_offsets event_data_lst
                               timestamps_lst event_data_magic tel ;;
      match out with
      | NoEvents | NoCoincidence =>
          telescopes_loop window_half_width time_offsets event_data_lst
                          timestamps_lst event_data_magic tel_ids' t
      | Coincidence d =>
          telescopes_loop window_half_width time_offsets event_data_lst
                          timestamps_lst event_data_magic tel_ids'
                          (add_telescope window_half_width tel d t)
      end
  end.

(** ** Deduplication and resolved identifiers (lines 333-357) *)

Definition index_le (r r' : row) : bool :=
  if obs_id_magic r <? obs_id_magic r' then true
  else if obs_id_magic r' <? obs_id_magic r then false
  else if event_id_magic r <? event_id_magic r' then true
  else if event_id_magic r' <? event_id_magic r then false
  else tel_id r <=? tel_id r'.

Fixpoint insert_row (r : row) (l : list row) : list row :=
  match l with
  | [] => [r]
  | r' :: l' => if index_le r r' then r :: l else r' :: insert_row r l'
  end.

(** [sort_index]: a stable sort on (obs_id_magic, event_id_magic, tel_id). *)
Definition sort_index (l : list row) : list row := fold_right insert_row [] l.


Definition option_eqb (a b : option Z) : bool :=
  match a, b with
  | Some x, Some y => x =? y
  | None, None => true
  | _, _ => false
  end.

Fixpoint list_eqb (a b : list Z) : bool :=
  match a, b with
  | [], [] => true
  | x :: a', y :: b' => (x =? y) && list_eqb a' b'
  | _, _ => false
  end.

Definition same_columns (r r' : row) : bool :=
  (timestamp r =? timestamp r')
  && option_eqb (obs_id_lst r) (obs_id_lst r')
  && option_eqb (event_id_lst r) (event_id_lst r')
  && list_eqb (params r) (params r').

(** [drop_duplicates]: the first row of every set of rows with equal
    columns is kept. *)
Fixpoint drop_duplicates (l : list row) : list row :=
  match l with
  | [] => []
  | r :: l' =>
      r :: filter (fun r' => negb (same_columns r r')) (drop_duplicates l')
  end.

Definition same_group (r r' : row) : bool :=
  (obs_id_magic r =? obs_id_magic r') && (event_id_magic r =? event_id_magic r').

(** The values of a column that are present in the group of [r]. *)
Definition group_values (col : row -> option Z) (data : list row) (r : row)
    : list Z :=
  flat_map (fun r' => if same_group r r'
                      then match col r' with Some v => [v] | None => [] end
                      else [])
           data.

(** [groupby(["obs_id_magic", "event_id_magic"]).mean()] read at the
    group of [r]: missing values are skipped, a group without any value
    has a missing mean. *)
Definition group_mean (col : row -> option Z) (data : list row) (r : row)
    : option Q :=
  match group_values col data r with
  | [] => None
  | vs => Some (mean vs)
  end.

(** A row of the final table: index (obs_id, event_id, tel_id); the former
    index is kept in [source]. *)
Record event : Type := {
  obs_id : option Q;
  event_id : option Q;
  source : row
}.

Definition resolve (data : list row) (r : row) : event :=
  match group_mean obs_id_lst data r with
  | Some run =>
      {| obs_id := Some run;
         event_id := group_mean event_id_lst data r;
         source := r |}
  | None =>
      {| obs_id := Some (inject_Z (obs_id_magic r));
         event_id := Some (inject_Z (event_id_magic r));
         source := r |}
  end.

(** Lines 333-356.  The last [sort_index] (line 357) reorders the rows
    and is left out. *)
Definition assemble (data : list row) : list event :=
  let data := drop_duplicates (sort_index data) in
  map (resolve data) data.

(** ** The whole function (lines 87-399) *)

Record config : Type := {
  window_half_width : Z;
  offset_start : Z;
  offset_stop : Z
}.

(** How a run ends: with an exception, with [sys.exit()] or with the
    tables handed to [get_stereo_events] and to the table writer. *)
Inductive outcome : Type :=
| Raised (e : error)
| Exited (status : Z)
| Saved (events : list event) (fs : list feature) (ps : list (Z * list Z)).

Definition time_offsets (c : config) : list Z :=
  arange (offset_start c) (offset_stop c) TIME_ACCURACY.

Definition merged_tables (c : config) (event_data_lst : list lst_event)
    (event_data_magic : list magic_event) : result tables :=
  timestamps_lst <- mapM timestamp_lst (map lst_timestamp event_data_lst) ;;
  telescopes_loop (window_half_width c) (time_offsets c) event_data_lst
                  timestamps_lst event_data_magic
                  (np_unique (map magic_tel_id event_data_magic)) no_tables.

Definition empty {A : Type} (l : list A) : bool :=
  match l with
  | [] => true
  | _ => false
  end.

Definition event_coincidence (c : config) (event_data_lst : list lst_event)
    (event_data_magic : list magic_event) : outcome :=
  match merged_tables c event_data_lst event_data_magic with
  | Raise e => Raised e
  | Ok t =>
      if empty (event_data t) then Exited 0
      else Saved (assemble (event_data t)) (features t) (profiles t)
  end.

(** ** The window pre-filter *)

Lemma cdiv_spec a b : 0 < b -> b * (cdiv a b - 1) < a <= b * cdiv a b.
Proof.
  intros Hb. unfold cdiv.
  pose proof (Z.div_mod (- a) b ltac:(lia)).
  pose proof (Z.mod_pos_bound (- a) b Hb). lia.
Qed.

Lemma select_map_filter {A} (f : A -> bool) (l : list A) :
  select (map f l) l = filter f l.
Proof.
  induction l as [|x l IH]; [reflexivity|].
  cbn. destruct (f x); now rewrite IH.
Qed.

Lemma count_true_map_zero {A} (f : A -> bool) (l : list A) :
  count_true (map f l) = 0 <-> forall x, In x l -> f x = false.
Proof.
  induction l as [|x l IH]; cbn [map count_true fold_right].
  - split; [intros _ x [] | reflexivity].
  - fold (count_true (map f l)).
    pose proof (count_true_nonneg (map f l)).
    destruct (f x) eqn:E; split.
    + lia.
    + intros H1. specialize (H1 x (or_introl eq_refl)). congruence.
    + intros H0 y [<- | Hy]; [exact E | now apply IH].
    + intros H1. apply IH. intros y Hy. apply H1. now right.
Qed.

Lemma final_snoc l x : final (l ++ [x]) = Ok x.
Proof. unfold final. now rewrite rev_app_distr. Qed.

Lemma first_arange start stop step :
  0 < step -> start < stop -> first (arange start stop step) = Ok start.
Proof.
  intros Hs Hlt. unfold arange.
  pose proof (cdiv_spec (stop - start) step Hs).
  destruct (Z.to_nat (cdiv (stop - start) step)) as [|n] eqn:E; [nia|].
  cbn. f_equal. lia.
Qed.

(** The last offset of the grid: the largest start + k * step below stop. *)
Definition last_offset (start stop step : Z) : Z :=
  start + (cdiv (stop - start) step - 1) * step.

Lemma final_arange start stop step :
  0 < step -> start < stop ->
  final (arange start stop step) = Ok (last_offset start stop step).
Proof.
  intros Hs Hlt. unfold arange, last_offset.
  pose proof (cdiv_spec (stop - start) step Hs).
  destruct (Z.to_nat (cdiv (stop - start) step)) as [|n] eqn:E; [nia|].
  rewrite seq_S, map_app. cbn [map]. rewrite final_snoc. f_equal.
  cbn [Nat.add]. nia.
Qed.

Lemma last_offset_below_stop start stop step :
  0 < step ->
  last_offset start stop step < stop <= last_offset start stop step + step.
Proof.
  intros Hs. unfold last_offset.
  pose proof (cdiv_spec (stop - start) step Hs). lia.
Qed.

(** The interval of the specification: both configured scan bounds. *)
Definition in_configured_window (c : config) (t_first t_last t2 : Z) : bool :=
  (t_first + offset_start c - window_half_width c <=? t2)
  && (t2 <=? t_last + offset_stop c + window_half_width c).

(** An event that lies in the interval built from the configured stop
    bound is not retained, and the telescope is skipped. *)
Lemma prefilter_stop_bound_counterexample :
  let c := {| window_half_width := 300; offset_start := 0; offset_stop := 200 |} in
  let t1 := 1000000000000000000 in
  let t2 := 1000000000000000450 in
  (exists lo hi,
      time_lolim [t1] (time_offsets c) (window_half_width c) = Ok lo
      /\ time_uplim [t1] (time_offsets c) (window_half_width c) = Ok hi
      /\ filter (in_configured_window c t1 t1) [t2] = [t2]
      /\ select (window_mask [t2] lo hi) [t2] = []
      /\ select (window_mask [t2] lo hi) [t2]
         <> filter (in_configured_window c t1 t1) [t2])
  /\ process_telescope (window_half_width c) (time_offsets c)
       [{| lst_obs_id := 1; lst_event_id := 1; lst_tel_id := 1;
           lst_timestamp := "1000000000.0"; lst_params := [] |}]
       [t1]
       [{| magic_obs_id := 7; magic_event_id := 1; magic_tel_id := 2;
           time_sec := 1000000000; time_nanosec := 450; magic_params := [] |}]
       2
     = Ok NoEvents.
Proof.
  cbv zeta. split; [|reflexivity].
  eexists. eexists. split; [reflexivity|]. split; [reflexivity|].
  split; [reflexivity|]. split; [reflexivity | discriminate].
Qed.

(** C5 (amended). With LST-1 events and a non-empty grid, the pre-filter
    keeps exactly the MAGIC events whose timestamp lies in the closed
    interval from first LST-1 timestamp + start offset - window to last
    LST-1 timestamp + last scanned offset + window, where the last
    scanned offset is the largest grid value below the configured stop
    bound; a telescope without such an event is skipped without error and
    the loop goes on with the next telescope. *)
Theorem prefilter_window (c : config) (timestamps_lst : list Z)
    (t_first t_last : Z) :
  first timestamps_lst = Ok t_first ->
  final timestamps_lst = Ok t_last ->
  offset_start c < offset_stop c ->
  let w := window_half_width c in
  let o_last := last_offset (offset_start c) (offset_stop c) TIME_ACCURACY in
  let lo := t_first + offset_start c - w in
  let hi := t_last + o_last + w in
  Int64.in_range (t_first + offset_start c) ->
  Int64.in_range lo ->
  Int64.in_range (t_last + o_last) ->
  Int64.in_range hi ->
  o_last < offset_stop c <= o_last + TIME_ACCURACY
  /\ time_lolim timestamps_lst (time_offsets c) w = Ok lo
  /\ time_uplim timestamps_lst (time_offsets c) w = Ok hi
  /\ (forall timestamps_magic t,
        In t (select (window_mask timestamps_magic lo hi) timestamps_magic)
        <-> In t timestamps_magic /\ lo <= t <= hi)
  /\ (forall event_data_lst event_data_magic tel name timestamps_magic,
        TEL_NAMES tel = Ok name ->
        mapM (fun m => timestamp_magic (time_sec m) (time_nanosec m))
             (filter (fun m => magic_tel_id m =? tel) event_data_magic)
        = Ok timestamps_magic ->
        (forall t, In t timestamps_magic -> ~ lo <= t <= hi) ->
        process_telescope w (time_offsets c) event_data_lst timestamps_lst
                          event_data_magic tel = Ok NoEvents
        /\ forall tel_ids t,
             telescopes_loop w (time_offsets c) event_data_lst timestamps_lst
                             event_data_magic (tel :: tel_ids) t
             = telescopes_loop w (time_offsets c) event_data_lst
                               timestamps_lst event_data_magic tel_ids t).
Proof.
  intros Hf Hl Hlt w o_last lo hi R1 R2 R3 R4.
  assert (Hstep : 0 < TIME_ACCURACY) by reflexivity.
  assert (Elo : time_lolim timestamps_lst (time_offsets c) w = Ok lo).
  { unfold time_lolim, time_offsets. rewrite Hf, first_arange by assumption.
    cbn [bind]. rewrite Int64.add_exact, Int64.sub_exact by assumption.
    reflexivity. }
  assert (Ehi : time_uplim timestamps_lst (time_offsets c) w = Ok hi).
  { unfold time_uplim, time_offsets. rewrite Hl, final_arange by assumption.
    cbn [bind]. fold o_last.
    rewrite (Int64.add_exact t_last o_last) by assumption.
    rewrite Int64.add_exact by assumption. reflexivity. }
  split; [apply last_offset_below_stop; exact Hstep|].
  split; [exact Elo|]. split; [exact Ehi|]. split.
  - intros timestamps_magic t. unfold window_mask.
    rewrite select_map_filter, filter_In, andb_true_iff, !Z.leb_le. tauto.
  - intros event_data_lst event_data_magic tel name timestamps_magic Hn Hm Hout.
    assert (P : process_telescope w (time_offsets c) event_data_lst
                  timestamps_lst event_data_magic tel = Ok NoEvents).
    { unfold process_telescope. rewrite Hn. cbn [bind]. rewrite Hm. cbn [bind].
      rewrite Elo, Ehi. cbn [bind].
      assert (Z0 : count_true (window_mask timestamps_magic lo hi) = 0).
      { unfold window_mask. apply count_true_map_zero. intros t Ht.
        specialize (Hout t Ht).
        destruct ((lo <=? t) && (t <=? hi)) eqn:E; [|reflexivity].
        apply andb_true_iff in E. rewrite !Z.leb_le in E. tauto. }
      rewrite Z0. reflexivity. }
    split; [exact P|].
    intros tel_ids t. cbn [telescopes_loop]. rewrite P. reflexivity.
Qed.

Lemma prefilter_window_witness :
  let c := {| window_half_width := 300; offset_start := 0; offset_stop := 200 |} in
  time_uplim [1000000000000000000; 1000000000000100000] (time_offsets c) 300
  = Ok (1000000000000100000 + 100 + 300).
Proof.
  intros c.
  assert (R : forall z, -1 <= z <= 2000000000000000000 -> Int64.in_range z)
    by (unfold Int64.in_range, Int64.min_signed, Int64.max_signed; lia).
  destruct (prefilter_window c [1000000000000000000; 1000000000000100000]
              1000000000000000000 1000000000000100000)
    as (_ & _ & H & _).
  - reflexivity.
  - reflexivity.
  - cbn. lia.
  - apply R. cbn. lia.
  - apply R. cbn. lia.
  - apply R. cbn. lia.
  - apply R. cbn. lia.
  - exact H.
Defined.

(** ** The refinement step *)

(** C10. One LST-1 event and two MAGIC events 6.5 us before and 3.5 us
    after it give two separate plateaus of one coincidence each over the
    scan from -10 us to 10 us with a 300 ns window.  The offset at max is
    their midpoint, -1.5 us, no offset within 600 ns of it has a
    coincidence, and [np.average] raises ZeroDivisionError although the
    scan found coincidences. *)
Theorem refiner_zero_weights :
  let c := {| window_half_width := 300;
              offset_start := -10000; offset_stop := 10000 |} in
  let event_data_lst :=
    [{| lst_obs_id := 3265; lst_event_id := 1; lst_tel_id := 1;
        lst_timestamp := "1000000000.0"; lst_params := [] |}] in
  let event_data_magic :=
    [{| magic_obs_id := 5093; magic_event_id := 11; magic_tel_id := 2;
        time_sec := 999999999; time_nanosec := 999993500; magic_params := [] |};
     {| magic_obs_id := 5093; magic_event_id := 12; magic_tel_id := 2;
        time_sec := 1000000000; time_nanosec := 3500; magic_params := [] |}] in
  let timestamps_lst := [1000000000000000000] in
  let timestamps_magic := [999999999999993500; 1000000000000003500] in
  let counts := scan timestamps_lst timestamps_magic (time_offsets c) 300 in
  let at_max := offset_at_max (time_offsets c) counts in
  any counts = true
  /\ list_max counts = 1
  /\ (at_max == inject_Z (-1500))%Q
  /\ sum (select (average_region (time_offsets c) at_max 300) counts) = 0
  /\ average_offset (time_offsets c) counts 300 = Raise ZeroDivisionError
  /\ event_coincidence c event_data_lst event_data_magic
     = Raised ZeroDivisionError.
Proof.
  cbv zeta.
  split; [vm_compute; reflexivity|].
  split; [vm_compute; reflexivity|].
  split; [vm_compute; reflexivity|].
  split; [vm_compute; reflexivity|].
  split; vm_compute; reflexivity.
Qed.

(** The neighbourhood as the specification words it: the closed interval
    from offset at max - 2 * window to offset at max + 2 * window, with
    bounds that are not rounded. *)
Definition average_region_spec (time_offsets : list Z) (at_max : Q)
    (window_half_width : Z) : list bool :=
  map (fun o =>
         Qle_bool (offset_lolim at_max window_half_width) (inject_Z o)
         && Qle_bool (inject_Z o) (offset_uplim at_max window_half_width))
      time_offsets.

Definition average_offset_spec (time_offsets n_coincidences : list Z)
    (window_half_width : Z) : result Z :=
  let at_max := offset_at_max time_offsets n_coincidences in
  let mask := average_region_spec time_offsets at_max window_half_width in
  avg <- average (select mask time_offsets) (select mask n_coincidences) ;;
  Ok (round_half_even avg).

(** One LST-1 event, eight MAGIC events 0, 200, ..., 800 ns after it, a
    31 ns window and the grid 0, 100, ..., 900: the offset at max is
    437.5 ns and the interval [375.5, 499.5] holds the offset 400 only,
    but the rounded bounds 376 and 500 take the offset 500 in.  The
    refined offset is 450 and not 400, and nothing matches at it. *)
Lemma refiner_unrounded_counterexample :
  let offs := arange 0 1000 100 in
  let timestamps_lst := [1000000000000000000] in
  let timestamps_magic :=
    map (fun d => 1000000000000000000 + d)
        [0; 200; 300; 400; 500; 600; 700; 800] in
  let counts := scan timestamps_lst timestamps_magic offs 31 in
  (offset_at_max offs counts == 875 # 2)%Q
  /\ average_offset_spec offs counts 31 = Ok 400
  /\ average_offset offs counts 31 = Ok 450
  /\ average_offset offs counts 31 <> average_offset_spec offs counts 31
  /\ n_coincidence_at timestamps_lst timestamps_magic 400 31 = 1
  /\ (exists mask,
         refine timestamps_lst timestamps_magic offs counts 31 = Ok (450, mask)
         /\ count_nonzero mask = 0).
Proof.
  cbv zeta.
  split; [vm_compute; reflexivity|].
  split; [vm_compute; reflexivity|].
  split; [vm_compute; reflexivity|].
  split; [vm_compute; discriminate|].
  split; [vm_compute; reflexivity|].
  eexists. split; vm_compute; reflexivity.
Qed.

Definition weighted (p : Z * Z) : Z := fst p * snd p.

Lemma dot_nil_r a : dot a [] = 0.
Proof. destruct a; reflexivity. Qed.

Lemma select_nil_r {A} mask : @select A mask [] = [].
Proof. destruct mask; reflexivity. Qed.

Lemma select_region_combine (p : Z -> bool) (offs : list Z) : forall counts,
  dot (select (map p offs) offs) (select (map p offs) counts)
  = sum (map weighted (filter (fun x => p (fst x)) (combine offs counts)))
  /\ sum (select (map p offs) counts)
     = sum (map snd (filter (fun x => p (fst x)) (combine offs counts))).
Proof.
  induction offs as [|o offs IH]; intros counts.
  - cbn. split; reflexivity.
  - destruct counts as [|n counts].
    + rewrite select_nil_r, dot_nil_r. split; reflexivity.
    + destruct (IH counts) as [IH1 IH2].
      cbn [map select combine filter fst]. destruct (p o).
      * cbn [dot map sum fold_right weighted fst snd].
        fold (sum (map weighted (filter (fun x => p (fst x)) (combine offs counts)))).
        fold (sum (map snd (filter (fun x => p (fst x)) (combine offs counts)))).
        fold (sum (select (map p offs) counts)).
        rewrite IH1, IH2. split; reflexivity.
      * split; assumption.
Qed.

Lemma coincidence_mask_cell timestamps_lst timestamps_magic o w i j t1 t2 :
  nth_error timestamps_lst i = Some t1 ->
  nth_error timestamps_magic j = Some t2 ->
  exists r, nth_error (coincidence_mask timestamps_lst timestamps_magic o w) i
            = Some r
            /\ nth_error r j = Some (coincident t1 t2 o w).
Proof.
  intros H1 H2. unfold coincidence_mask.
  eexists. split.
  - rewrite nth_error_map, H1. reflexivity.
  - rewrite nth_error_map, H2. reflexivity.
Qed.

Lemma two_windows_exact w :
  Int64.in_range (2 * w) -> two_windows w = 2 * w.
Proof. apply Int64.wrap_in_range. Qed.

(** C4 (amended).  The refiner keeps the candidate offsets lying between
    the bounds offset at max - 2 * window and offset at max + 2 * window
    after both bounds are rounded to the nearest integer (ties to even).
    When the counts kept have a non-zero total, the refined offset is the
    count-weighted mean of the offsets kept, rounded to the nearest
    integer, and the definitive mask is the edge-inclusive coincidence
    test evaluated once, at the refined offset. *)
Theorem refiner_weighted_mean
    (timestamps_lst timestamps_magic offs counts : list Z) (w : Z) :
  Int64.in_range (2 * w) ->
  let at_max := offset_at_max offs counts in
  let lo := round_half_even (at_max - inject_Z (2 * w)) in
  let hi := round_half_even (at_max + inject_Z (2 * w)) in
  let near :=
    filter (fun x => (lo <=? fst x) && (fst x <=? hi)) (combine offs counts) in
  let weight := sum (map snd near) in
  weight <> 0 ->
  exists r mask,
    refine timestamps_lst timestamps_magic offs counts w = Ok (r, mask)
    /\ r = round_half_even
             (inject_Z (sum (map weighted near)) / inject_Z weight)
    /\ (forall i j t1 t2,
           nth_error timestamps_lst i = Some t1 ->
           nth_error timestamps_magic j = Some t2 ->
           exists row, nth_error mask i = Some row
                       /\ nth_error row j = Some (coincident t1 t2 r w))
    /\ count_nonzero mask = n_coincidence_at timestamps_lst timestamps_magic r w.
Proof.
  intros Hw at_max lo hi near weight Hne.
  unfold refine, average_offset, average_region, offset_lolim, offset_uplim.
  rewrite two_windows_exact by exact Hw.
  fold at_max. fold lo. fold hi.
  destruct (select_region_combine (fun o => (lo <=? o) && (o <=? hi)) offs counts)
    as [E1 E2].
  fold near in E1, E2. fold weight in E2.
  unfold average. rewrite E1, E2.
  destruct (Z.eqb_spec weight 0) as [E0 | _]; [contradiction|].
  cbn [bind].
  eexists. eexists. split; [reflexivity|].
  split; [reflexivity|].
  split; [|reflexivity].
  intros i j t1 t2 H1 H2. eapply coincidence_mask_cell; eassumption.
Qed.

Lemma refiner_weighted_mean_witness :
  exists mask,
    refine [1000000000000000000] [999999999999993500]
           [-6600; -6500; -6400] [1; 1; 1] 50
    = Ok (-6500, mask).
Proof.
  destruct (refiner_weighted_mean [1000000000000000000] [999999999999993500]
              [-6600; -6500; -6400] [1; 1; 1] 50)
    as (r & mask & H & Hr & _).
  - unfold Int64.in_range, Int64.min_signed, Int64.max_signed. lia.
  - vm_compute. discriminate.
  - exists mask. rewrite H. f_equal. f_equal. rewrite Hr. vm_compute. reflexivity.
Defined.

(** ** Match fractions *)





Lemma filter_none {A} (p : A -> bool) (l : list A) :
  (forall x, In x l -> p x = false) -> filter p l = [].
Proof.
  induction l as [|x l IH]; intros H; [reflexivity|].
  cbn. rewrite (H x (or_introl eq_refl)). apply IH.
  intros y Hy. apply H. now right.
Qed.

Lemma filter_map_swap {A B} (g : A -> B) (p : B -> bool) (l : list A) :
  filter p (map g l) = map g (filter (fun x => p (g x)) l).
Proof.
  induction l as [|x l IH]; [reflexivity|].
  cbn. destruct (p (g x)); cbn; now rewrite IH.
Qed.

Lemma combine_map_r {A B} (f : A -> B) (l : list A) :
  combine l (map f l) = map (fun x => (x, f x)) l.
Proof. induction l as [|x l IH]; cbn; [reflexivity | now rewrite IH]. Qed.




Section IsolatedPeak.

Variables (timestamps_lst timestamps_magic before after : list Z).
Variables (o w : Z).

Let count (o' : Z) : Z := n_coincidence_at timestamps_lst timestamps_magic o' w.
Let offs : list Z := before ++ o :: after.
Let counts : list Z := scan timestamps_lst timestamps_magic offs w.

Hypothesis window_nonneg : 0 <= w.
Hypothesis window_range : Int64.in_range (2 * w).
Hypothesis peak_positive : 0 < count o.
Hypothesis peak_unique :
  forall o', In o' (before ++ after) -> count o' < count o.
Hypothesis peak_isolated :
  forall o', In o' (before ++ after) ->
             o - 2 * w <= o' <= o + 2 * w -> count o' = 0.

Lemma peak_list_max : list_max counts = count o.
Proof.
  assert (Hin : In (count o) counts).
  { unfold counts, scan, offs. apply in_map_iff. exists o.
    split; [reflexivity | apply in_elt]. }
  assert (Hne : counts <> []) by (intros E; rewrite E in Hin; contradiction).
  pose proof (list_max_ge _ _ Hin) as H1.
  pose proof (list_max_in _ Hne) as H2.
  change (In (list_max counts) (map count offs)) in H2.
  apply in_map_iff in H2 as (o' & E & Ho').
  rewrite <- E in H1 |- *.
  assert (Hcases : o' = o \/ In o' (before ++ after)).
  { unfold offs in Ho'. apply in_app_or in Ho' as [Hb | [-> | Ha]];
      [right; apply in_or_app; now left | now left
      | right; apply in_or_app; now right]. }
  destruct Hcases as [-> | Hother]; [reflexivity|].
  pose proof (peak_unique o' Hother) as Hlt.
  exfalso. apply (Z.lt_irrefl (count o)).
  eapply Z.le_lt_trans; eassumption.
Qed.

Lemma peak_maximizing_offsets : maximizing_offsets offs counts = [o].
Proof.
  unfold maximizing_offsets. rewrite peak_list_max.
  change counts with (map count offs). rewrite map_map.
  rewrite select_map_filter.
  unfold offs. rewrite filter_app. cbn [filter]. rewrite Z.eqb_refl.
  rewrite !filter_none; [reflexivity | |].
  - intros x Hx. apply Z.eqb_neq, Z.lt_neq, peak_unique.
    apply in_or_app. now right.
  - intros x Hx. apply Z.eqb_neq, Z.lt_neq, peak_unique.
    apply in_or_app. now left.
Qed.


Lemma sum_counts_nonneg (l : list Z) : 0 <= sum (map count l).
Proof.
  induction l as [|x l IH]; cbn [map sum fold_right]; [apply Z.le_refl|].
  fold (sum (map count l)).
  pose proof (n_coincidence_at_nonneg timestamps_lst timestamps_magic x w) as H.
  fold (count x) in H.
  exact (Z.add_nonneg_nonneg _ _ H IH).
Qed.

(** With a single maximizing offset the counts averaged over have a
    positive total: [np.average] does not raise. *)
Lemma peak_weight_positive :
  0 < sum (select (average_region offs (offset_at_max offs counts) w) counts).
Proof.
  unfold average_region, offset_at_max.
  rewrite peak_maximizing_offsets.
  unfold offset_lolim, offset_uplim.
  rewrite two_windows_exact by exact window_range.
  rewrite (round_half_even_integer _ (o - 2 * w)).
  2:{ rewrite mean_single. unfold Qminus.
      rewrite <- inject_Z_opp, <- inject_Z_plus. reflexivity. }
  rewrite (round_half_even_integer _ (o + 2 * w)).
  2:{ rewrite mean_single, <- inject_Z_plus. reflexivity. }
  set (p := fun x => (o - 2 * w <=? x) && (x <=? o + 2 * w)).
  destruct (select_region_combine p offs counts) as [_ E2].
  rewrite E2. change counts with (map count offs).
  rewrite combine_map_r.
  rewrite (filter_map_swap (fun x => (x, count x)) (fun x => p (fst x))).
  cbn [fst]. rewrite map_map. cbn [snd].
  assert (Hp : p o = true).
  { unfold p. apply andb_true_iff. rewrite !Z.leb_le.
    pose proof window_nonneg. lia. }
  unfold offs. rewrite filter_app. cbn [filter]. rewrite Hp.
  rewrite map_app. cbn [map]. rewrite sum_app.
  cbn [sum fold_right]. fold (sum (map count (filter p after))).
  pose proof (sum_counts_nonneg (filter p before)) as H1.
  pose proof (sum_counts_nonneg (filter p after)) as H2.
  apply Z.add_nonneg_pos; [exact H1|].
  apply Z.add_pos_nonneg; [exact peak_positive | exact H2].
Qed.


End IsolatedPeak.



(** ** Resolved identifiers *)

(** Both LST-1 identifiers of a row are present, or both are missing. *)
Definition ids_together (r : row) : Prop :=
  obs_id_lst r = None <-> event_id_lst r = None.

Lemma group_values_spec (col : row -> option Z) data r v :
  In v (group_values col data r)
  <-> exists r', In r' data
                 /\ obs_id_magic r' = obs_id_magic r
                 /\ event_id_magic r' = event_id_magic r
                 /\ col r' = Some v.
Proof.
  unfold group_values. rewrite in_flat_map. split.
  - intros (r' & Hr' & Hv). exists r'.
    unfold same_group in Hv.
    destruct ((obs_id_magic r =? obs_id_magic r')
              && (event_id_magic r =? event_id_magic r')) eqn:G;
      [|contradiction].
    apply andb_true_iff in G as [G1 G2].
    apply Z.eqb_eq in G1, G2.
    destruct (col r') as [v'|]; [|contradiction].
    destruct Hv as [<- | []]. auto.
  - intros (r' & Hr' & G1 & G2 & Hc). exists r'. split; [exact Hr'|].
    unfold same_group. rewrite G1, G2, !Z.eqb_refl, Hc. cbn. now left.
Qed.

Lemma group_values_together data r :
  Forall ids_together data ->
  group_values obs_id_lst data r = [] ->
  group_values event_id_lst data r = [].
Proof.
  intros Hall Hempty.
  destruct (group_values event_id_lst data r) as [|v vs] eqn:E; [reflexivity|].
  assert (Hv : In v (group_values event_id_lst data r))
    by (rewrite E; now left).
  apply group_values_spec in Hv as (r' & Hr' & G1 & G2 & Hc).
  rewrite Forall_forall in Hall. specialize (Hall r' Hr').
  destruct (obs_id_lst r') as [u|] eqn:Hu.
  - assert (In u (group_values obs_id_lst data r))
      by (apply group_values_spec; eauto).
    rewrite Hempty in H. contradiction.
  - destruct Hall as [Hall _]. rewrite (Hall Hu) in Hc. discriminate.
Qed.


Lemma group_mean_some col data r :
  group_values col data r <> [] ->
  group_mean col data r = Some (mean (group_values col data r)).
Proof.
  unfold group_mean. destruct (group_values col data r); [congruence|reflexivity].
Qed.




(** The rows built by the loop carry both LST-1 identifiers or neither. *)

Lemma rows_lst_ids_together event_data_lst timestamps_lst magic pairs :
  Forall ids_together (rows_lst event_data_lst timestamps_lst magic pairs).
Proof.
  apply Forall_forall. intros r Hr. unfold rows_lst in Hr.
  apply in_flat_map in Hr as ([i j] & _ & Hr).
  destruct (nth_error event_data_lst i); [|contradiction].
  destruct (nth_error timestamps_lst i); [|contradiction].
  destruct (nth_error magic j); [|contradiction].
  destruct Hr as [<- | []]. unfold ids_together. cbn. split; discriminate.
Qed.

Lemma rows_magic_ids_together event_data_lst magic timestamps_magic pairs :
  Forall ids_together (rows_magic event_data_lst magic timestamps_magic pairs).
Proof.
  apply Forall_forall. intros r Hr. unfold rows_magic in Hr.
  apply in_map_iff in Hr as ([j [m t]] & <- & _).
  unfold ids_together. cbn.
  destruct (match assigned pairs j with
            | Some i => nth_error event_data_lst i
            | None => None
            end); cbn; split; congruence.
Qed.

Lemma process_telescope_ids_together w offs event_data_lst timestamps_lst
    event_data_magic tel d :
  process_telescope w offs event_data_lst timestamps_lst event_data_magic tel
  = Ok (Coincidence d) ->
  Forall ids_together (df_lst d ++ df_magic d).
Proof.
  unfold process_telescope.
  destruct (TEL_NAMES tel); cbn [bind]; [|discriminate].
  destruct (mapM _ _) as [timestamps_magic|]; cbn [bind]; [|discriminate].
  destruct (time_lolim _ _ _) as [lo|]; cbn [bind]; [|discriminate].
  destruct (time_uplim _ _ _) as [hi|]; cbn [bind]; [|discriminate].
  destruct (count_true _ =? 0); [discriminate|].
  destruct (negb _); [discriminate|].
  destruct (refine _ _ _ _ _) as [[avg mask]|]; cbn [bind]; [|discriminate].
  intros H. injection H as <-. cbn [df_lst df_magic].
  apply Forall_app. split;
    [apply rows_lst_ids_together | apply rows_magic_ids_together].
Qed.

Lemma telescopes_loop_ids_together w offs event_data_lst timestamps_lst
    event_data_magic tel_ids : forall t t',
  Forall ids_together (event_data t) ->
  telescopes_loop w offs event_data_lst timestamps_lst event_data_magic
                  tel_ids t = Ok t' ->
  Forall ids_together (event_data t').
Proof.
  induction tel_ids as [|tel tel_ids IH]; intros t t' Ht H.
  - cbn in H. injection H as <-. exact Ht.
  - cbn [telescopes_loop] in H.
    destruct (process_telescope w offs event_data_lst timestamps_lst
                                event_data_magic tel) as [[| |d]|] eqn:P;
      cbn [bind] in H; try discriminate; try (eapply IH; eassumption).
    eapply IH; [|exact H].
    unfold add_telescope. cbn [event_data].
    apply Forall_app. split; [exact Ht|].
    eapply process_telescope_ids_together. exact P.
Qed.

Lemma merged_tables_ids_together c event_data_lst event_data_magic t :
  merged_tables c event_data_lst event_data_magic = Ok t ->
  Forall ids_together (event_data t).
Proof.
  unfold merged_tables.
  destruct (mapM timestamp_lst _) as [timestamps_lst|]; cbn [bind];
    [|discriminate].
  apply telescopes_loop_ids_together. constructor.
Qed.

Lemma insert_row_In r l x : In x (insert_row r l) <-> x = r \/ In x l.
Proof.
  induction l as [|y l IH]; cbn [insert_row].
  - cbn. intuition.
  - destruct (index_le r y); cbn [In]; [intuition|].
    rewrite IH. intuition.
Qed.

Lemma sort_index_In l x : In x (sort_index l) <-> In x l.
Proof.
  induction l as [|r l IH]; [reflexivity|].
  cbn [sort_index fold_right]. fold (sort_index l).
  rewrite insert_row_In, IH. cbn. intuition.
Qed.

Lemma drop_duplicates_In l x : In x (drop_duplicates l) -> In x l.
Proof.
  revert x. induction l as [|r l IH]; intros x; [auto|].
  cbn [drop_duplicates In]. intros [-> | H]; [now left|].
  apply filter_In in H as [H _]. right. auto.
Qed.

(** The invariant holds in the table that [assemble] resolves. *)
Lemma deduplicated_ids_together c event_data_lst event_data_magic t :
  merged_tables c event_data_lst event_data_magic = Ok t ->
  Forall ids_together (drop_duplicates (sort_index (event_data t))).
Proof.
  intros H. apply merged_tables_ids_together in H.
  rewrite Forall_forall in *. intros r Hr.
  apply H, sort_index_In, drop_duplicates_In, Hr.
Qed.

(** ** Deduplication *)









(** The index of the final table. *)
Definition key (e : event) : option Q * option Q * Z :=
  (obs_id e, event_id e, tel_id (source e)).



(** An LST-1 event coincident with the MAGIC-I and the MAGIC-II image of
    the same MAGIC event enters the merged table twice and leaves the
    deduplication once. *)
Example stereo_match_kept_once :
  let c := {| window_half_width := 300;
              offset_start := -10000; offset_stop := 10000 |} in
  let event_data_lst :=
    [{| lst_obs_id := 3265; lst_event_id := 1; lst_tel_id := 1;
        lst_timestamp := "1000000000.0"; lst_params := [101] |}] in
  let event_data_magic :=
    [{| magic_obs_id := 5093; magic_event_id := 11; magic_tel_id := 2;
        time_sec := 999999999; time_nanosec := 999993500;
        magic_params := [201] |};
     {| magic_obs_id := 5093; magic_event_id := 11; magic_tel_id := 3;
        time_sec := 999999999; time_nanosec := 999993510;
        magic_params := [301] |}] in
  (exists t, merged_tables c event_data_lst event_data_magic = Ok t
             /\ List.length (event_data t) = 4%nat)
  /\ exists events fs ps,
       event_coincidence c event_data_lst event_data_magic = Saved events fs ps
       /\ map key events
          = [(Some (9795 # 3), Some (3 # 3), 1);
             (Some (9795 # 3), Some (3 # 3), 2);
             (Some (9795 # 3), Some (3 # 3), 3)].
Proof.
  cbv zeta. split.
  - eexists. split; vm_compute; reflexivity.
  - do 3 eexists. split; vm_compute; reflexivity.
Qed.

(** The scenario of the specification: three LST-1 events 100 us apart
    and three MAGIC events 6.5 us before them, scanned from -10 us to
    10 us with a 300 ns window. *)
Example end_to_end_scenario :
  let offs := arange (-10000) 10000 100 in
  let timestamps_lst :=
    [1000000000000000000; 1000000000000100000; 1000000000000200000] in
  let timestamps_magic :=
    [999999999999993500; 999999999999993500 + 100000;
     999999999999993500 + 200000] in
  let counts := scan timestamps_lst timestamps_magic offs 300 in
  list_max counts = 3
  /\ maximizing_offsets offs counts
     = [-6800; -6700; -6600; -6500; -6400; -6300; -6200]
  /\ (offset_at_max offs counts == inject_Z (-6500))%Q
  /\ exists mask,
       refine timestamps_lst timestamps_magic offs counts 300
       = Ok (-6500, mask)
       /\ count_nonzero mask = 3.
Proof.
  cbv zeta.
  split; [vm_compute; reflexivity|].
  split; [vm_compute; reflexivity|].
  split; [vm_compute; reflexivity|].
  eexists. split; vm_compute; reflexivity.
Qed.

(** ** Runs without coincident events *)

Definition skipped (out : result telescope_outcome) : Prop :=
  out = Ok NoEvents \/ out = Ok NoCoincidence.

Lemma telescopes_loop_skipped w offs event_data_lst timestamps_lst
    event_data_magic tel_ids t :
  (forall tel, In tel tel_ids ->
               skipped (process_telescope w offs event_data_lst timestamps_lst
                                          event_data_magic tel)) ->
  telescopes_loop w offs event_data_lst timestamps_lst event_data_magic
                  tel_ids t = Ok t.
Proof.
  induction tel_ids as [|tel tel_ids IH]; intros H; [reflexivity|].
  cbn [telescopes_loop].
  destruct (H tel (or_introl eq_refl)) as [-> | ->]; cbn [bind];
    apply IH; intros tel' Htel'; apply H; now right.
Qed.

Lemma empty_table_exits (c : config) (event_data_lst : list lst_event)
    (event_data_magic : list magic_event) (t : tables) :
  merged_tables c event_data_lst event_data_magic = Ok t ->
  event_data t = [] ->
  event_coincidence c event_data_lst event_data_magic = Exited 0.
Proof.
  intros Hm He. unfold event_coincidence. rewrite Hm, He. reflexivity.
Qed.

(** Every telescope skipped: the merged table is empty. *)
Lemma all_skipped_empty (c : config) (event_data_lst : list lst_event)
    (event_data_magic : list magic_event) (timestamps_lst : list Z) :
  mapM timestamp_lst (map lst_timestamp event_data_lst) = Ok timestamps_lst ->
  (forall tel, In tel (np_unique (map magic_tel_id event_data_magic)) ->
               skipped (process_telescope (window_half_width c) (time_offsets c)
                          event_data_lst timestamps_lst event_data_magic tel)) ->
  merged_tables c event_data_lst event_data_magic = Ok no_tables
  /\ event_coincidence c event_data_lst event_data_magic = Exited 0.
Proof.
  intros Hts Hskip.
  assert (M : merged_tables c event_data_lst event_data_magic = Ok no_tables).
  { unfold merged_tables. rewrite Hts. cbn [bind].
    apply telescopes_loop_skipped. exact Hskip. }
  split; [exact M|].
  apply (empty_table_exits c event_data_lst event_data_magic no_tables M eq_refl).
Qed.

(** C9.  When the merged table is empty after the loop over the
    telescopes, the run ends with [sys.exit()], exit status 0: it raises
    nothing and saves nothing.  This is what happens when every telescope
    is skipped, for lack of MAGIC events in the window or for lack of any
    coincidence in the scan. *)
Theorem no_coincidence_exits_cleanly (c : config)
    (event_data_lst : list lst_event) (event_data_magic : list magic_event)
    (t : tables) :
  merged_tables c event_data_lst event_data_magic = Ok t ->
  event_data t = [] ->
  event_coincidence c event_data_lst event_data_magic = Exited 0
  /\ (forall e, event_coincidence c event_data_lst event_data_magic <> Raised e)
  /\ (forall events fs ps,
         event_coincidence c event_data_lst event_data_magic
         <> Saved events fs ps).
Proof.
  intros Hm He.
  rewrite (empty_table_exits c event_data_lst event_data_magic t Hm He).
  split; [reflexivity|]. split; intros; discriminate.
Qed.

Lemma no_coincidence_exits_cleanly_witness :
  event_coincidence
    {| window_half_width := 300; offset_start := -10000; offset_stop := 10000 |}
    [{| lst_obs_id := 3265; lst_event_id := 1; lst_tel_id := 1;
        lst_timestamp := "1000000000.0"; lst_params := [] |}]
    [{| magic_obs_id := 5093; magic_event_id := 11; magic_tel_id := 2;
        time_sec := 1000000900; time_nanosec := 0; magic_params := [] |};
     {| magic_obs_id := 5093; magic_event_id := 11; magic_tel_id := 3;
        time_sec := 1000000000; time_nanosec := 11000; magic_params := [] |}]
  = Exited 0.
Proof.
  eapply (no_coincidence_exits_cleanly _ _ _ no_tables).
  - vm_compute. reflexivity.
  - reflexivity.
Defined.

(** * Further properties of the script *)

(** ** The scan grid (lines 142-148) *)

(** X1.  The scanned offsets are exactly the values start + k * 100 ns,
    k = 0, 1, ..., that lie below the stop bound; they are listed in
    strictly increasing order, there are ceil((stop - start) / 100) of
    them, and there is none exactly when stop <= start. *)
Theorem scan_grid_spec (c : config) :
  (forall o, In o (time_offsets c)
             <-> exists k, 0 <= k
                           /\ o = offset_start c + k * TIME_ACCURACY
                           /\ o < offset_stop c)
  /\ increasing (time_offsets c)
  /\ Z.of_nat (List.length (time_offsets c))
     = Z.max 0 (cdiv (offset_stop c - offset_start c) TIME_ACCURACY)
  /\ (time_offsets c = [] <-> offset_stop c <= offset_start c).
Proof.
  assert (Hs : 0 < TIME_ACCURACY) by reflexivity.
  pose proof (cdiv_spec (offset_stop c - offset_start c) TIME_ACCURACY Hs) as Hc.
  unfold time_offsets, arange.
  set (n := cdiv (offset_stop c - offset_start c) TIME_ACCURACY) in *.
  split; [|split; [|split]].
  - intros o. rewrite in_map_iff. split.
    + intros (i & <- & Hi). apply in_seq in Hi.
      exists (Z.of_nat i). split; [lia|]. split; [reflexivity|]. nia.
    + intros (k & Hk & -> & Hlt). exists (Z.to_nat k).
      split; [rewrite Z2Nat.id by lia; reflexivity|].
      apply in_seq. nia.
  - apply (increasing_arange (offset_start c) (offset_stop c) TIME_ACCURACY Hs).
  - rewrite length_map, length_seq. lia.
  - split.
    + intros E. apply (f_equal (@List.length Z)) in E.
      rewrite length_map, length_seq in E. cbn in E. nia.
    + intros Hle. replace (Z.to_nat n) with 0%nat by nia. reflexivity.
Qed.

(** ** The scan (lines 216-238) *)

Lemma count_true_le_length l : count_true l <= Z.of_nat (List.length l).
Proof.
  induction l as [|b l IH]; [cbn; lia|].
  cbn [count_true fold_right List.length]. fold (count_true l).
  destruct b; lia.
Qed.

Lemma count_true_zero l : count_true l = 0 <-> forall b, In b l -> b = false.
Proof.
  rewrite <- (map_id l) at 1. rewrite (count_true_map_zero (fun b => b)).
  reflexivity.
Qed.

Lemma n_coincidence_at_le timestamps_lst timestamps_magic o w :
  n_coincidence_at timestamps_lst timestamps_magic o w
  <= Z.of_nat (List.length timestamps_lst)
     * Z.of_nat (List.length timestamps_magic).
Proof.
  unfold n_coincidence_at, coincidence_mask.
  induction timestamps_lst as [|t1 l IH]; [cbn; lia|].
  cbn [map count_nonzero fold_right List.length].
  fold (count_nonzero
          (map (fun t1 => map (fun t2 => coincident t1 t2 o w) timestamps_magic) l)).
  pose proof (count_true_le_length
                (map (fun t2 => coincident t1 t2 o w) timestamps_magic)) as H.
  rewrite length_map in H. lia.
Qed.

Lemma n_coincidence_at_zero timestamps_lst timestamps_magic o w :
  n_coincidence_at timestamps_lst timestamps_magic o w = 0
  <-> forall t1 t2, In t1 timestamps_lst -> In t2 timestamps_magic ->
                    coincident t1 t2 o w = false.
Proof.
  unfold n_coincidence_at, coincidence_mask.
  induction timestamps_lst as [|t1 l IH].
  - cbn. split; [intros _ ? ? [] | reflexivity].
  - cbn [map count_nonzero fold_right].
    fold (count_nonzero
            (map (fun t1 => map (fun t2 => coincident t1 t2 o w) timestamps_magic) l)).
    pose proof (count_true_nonneg
                  (map (fun t2 => coincident t1 t2 o w) timestamps_magic)).
    pose proof (count_nonzero_nonneg
                  (map (fun t1 => map (fun t2 => coincident t1 t2 o w)
                                      timestamps_magic) l)).
    split.
    + intros E t1' t2 [<- | H1] H2.
      * assert (Z0 : count_true (map (fun t2 => coincident t1 t2 o w)
                                     timestamps_magic) = 0) by lia.
        rewrite count_true_map_zero in Z0. auto.
      * apply IH; [lia | assumption | assumption].
    + intros Hall.
      assert (Z0 : count_true (map (fun t2 => coincident t1 t2 o w)
                                   timestamps_magic) = 0).
      { apply count_true_map_zero. intros t2 H2. apply Hall; [now left | exact H2]. }
      assert (Z1 : count_nonzero
                     (map (fun t1 => map (fun t2 => coincident t1 t2 o w)
                                         timestamps_magic) l) = 0).
      { apply IH. intros t1' t2 H1 H2. apply Hall; [now right | exact H2]. }
      lia.
Qed.

Lemma any_false_iff counts : any counts = false <-> forall n, In n counts -> n = 0.
Proof.
  unfold any. induction counts as [|n counts IH]; cbn [existsb].
  - split; [intros _ n [] | reflexivity].
  - rewrite orb_false_iff, IH, negb_false_iff, Z.eqb_eq. split.
    + intros [H0 H] m [<- | Hm]; auto.
    + intros H. split; [apply H; now left | intros m Hm; apply H; now right].
Qed.

(** X2.  The scan returns one count per scanned offset, each between 0
    and the number of (LST-1 event, MAGIC event) pairs; a count is 0
    exactly when no pair passes the coincidence test at its offset, and
    Python's [any] over the counts is false exactly when no pair passes
    the test at any scanned offset. *)
Theorem scan_counts (timestamps_lst timestamps_magic offs : list Z) (w : Z) :
  let counts := scan timestamps_lst timestamps_magic offs w in
  List.length counts = List.length offs
  /\ (forall n, In n counts ->
                0 <= n <= Z.of_nat (List.length timestamps_lst)
                          * Z.of_nat (List.length timestamps_magic))
  /\ (forall i o, nth_error offs i = Some o ->
                  exists n, nth_error counts i = Some n
                            /\ (n = 0 <-> forall t1 t2,
                                   In t1 timestamps_lst -> In t2 timestamps_magic ->
                                   coincident t1 t2 o w = false))
  /\ (any counts = false
      <-> forall o t1 t2, In o offs -> In t1 timestamps_lst ->
                          In t2 timestamps_magic ->
                          coincident t1 t2 o w = false).
Proof.
  cbv zeta. unfold scan. split; [apply length_map|]. split; [|split].
  - intros n Hn. apply in_map_iff in Hn as (o & <- & _).
    split; [apply n_coincidence_at_nonneg | apply n_coincidence_at_le].
  - intros i o Hi. eexists. split.
    + rewrite nth_error_map, Hi. reflexivity.
    + apply n_coincidence_at_zero.
  - rewrite any_false_iff. split.
    + intros H o t1 t2 Ho. apply n_coincidence_at_zero, H.
      apply in_map_iff. eauto.
    + intros H n Hn. apply in_map_iff in Hn as (o & <- & Ho).
      apply n_coincidence_at_zero. intros t1 t2. apply H, Ho.
Qed.

(** ** Matched pairs (line 280) *)

Lemma true_positions_In r : forall from j,
  In j (true_positions from r)
  <-> exists k, j = (from + k)%nat /\ nth_error r k = Some true.
Proof.
  induction r as [|b r IH]; intros from j; cbn [true_positions].
  - split; [intros [] | intros ([|k] & _ & H); discriminate].
  - assert (Shift : In j (true_positions (S from) r)
                    <-> exists k, j = (from + S k)%nat /\ nth_error r k = Some true).
    { rewrite IH. split; intros (k & -> & H); exists k; split; auto; lia. }
    destruct b.
    + cbn [In]. rewrite Shift. split.
      * intros [<- | (k & -> & H)];
          [exists 0%nat; split; [lia | reflexivity] | exists (S k); auto].
      * intros ([|k] & -> & H); [left; lia | right; exists k; auto].
    + rewrite Shift. split.
      * intros (k & -> & H). exists (S k). auto.
      * intros ([|k] & -> & H); [discriminate | exists k; auto].
Qed.

Lemma true_positions_length r : forall from,
  Z.of_nat (List.length (true_positions from r)) = count_true r.
Proof.
  induction r as [|b r IH]; intros from; [reflexivity|].
  cbn [true_positions count_true fold_right]. fold (count_true r).
  destruct b; cbn [List.length]; rewrite <- (IH (S from)); lia.
Qed.

Lemma where_from_In mask : forall from i j,
  In (i, j) (where_from from mask)
  <-> exists k r, i = (from + k)%nat /\ nth_error mask k = Some r
                  /\ nth_error r j = Some true.
Proof.
  induction mask as [|r mask IH]; intros from i j; cbn [where_from].
  - split; [intros [] | intros ([|k] & ? & _ & H & _); discriminate].
  - rewrite in_app_iff, in_map_iff, IH. split.
    + intros [(j' & E & Hj) | (k & r' & -> & Hk & Hj)].
      * injection E as <- <-. apply true_positions_In in Hj as (k & -> & Hk).
        exists 0%nat, r. split; [lia|]. split; [reflexivity | exact Hk].
      * exists (S k), r'. split; [lia | auto].
    + intros ([|k] & r' & -> & Hk & Hj).
      * cbn in Hk. injection Hk as <-. left. exists j.
        split; [f_equal; lia|]. apply true_positions_In. exists j. auto.
      * right. exists k, r'. split; [lia | auto].
Qed.

Lemma where_from_length mask : forall from,
  Z.of_nat (List.length (where_from from mask)) = count_nonzero mask.
Proof.
  induction mask as [|r mask IH]; intros from; [reflexivity|].
  cbn [where_from count_nonzero fold_right]. fold (count_nonzero mask).
  rewrite length_app, length_map, Nat2Z.inj_add, true_positions_length, IH.
  reflexivity.
Qed.

(** X3.  [np.where] lists exactly the cells of the mask that are true,
    and as many pairs as [np.count_nonzero] counts. *)
Theorem np_where_spec (mask : list (list bool)) :
  (forall i j, In (i, j) (np_where mask)
               <-> exists r, nth_error mask i = Some r
                             /\ nth_error r j = Some true)
  /\ Z.of_nat (List.length (np_where mask)) = count_nonzero mask.
Proof.
  split; [|apply where_from_length].
  intros i j. unfold np_where. rewrite where_from_In. split.
  - intros (k & r & -> & Hk & Hj). exists r. auto.
  - intros (r & Hi & Hj). exists i, r. auto.
Qed.

(** ** The pre-filter does not change the scan (lines 188-204) *)

Lemma time_offsets_bounds c o :
  In o (time_offsets c) ->
  offset_start c <= o
  <= last_offset (offset_start c) (offset_stop c) TIME_ACCURACY.
Proof.
  unfold time_offsets, arange, last_offset. intros H.
  apply in_map_iff in H as (i & <- & Hi). apply in_seq in Hi.
  unfold TIME_ACCURACY in *. nia.
Qed.

Lemma count_true_filter {A} (f p : A -> bool) (l : list A) :
  (forall x, In x l -> f x = true -> p x = true) ->
  count_true (map f (filter p l)) = count_true (map f l).
Proof.
  induction l as [|x l IH]; intros H; [reflexivity|].
  assert (IH' : count_true (map f (filter p l)) = count_true (map f l))
    by (apply IH; intros y Hy; apply H; now right).
  cbn [filter map]. destruct (p x) eqn:P.
  - cbn [map count_true fold_right].
    fold (count_true (map f (filter p l))). fold (count_true (map f l)).
    now rewrite IH'.
  - cbn [count_true fold_right]. fold (count_true (map f l)).
    destruct (f x) eqn:F; [|exact IH'].
    rewrite (H x (or_introl eq_refl) F) in P. discriminate.
Qed.

Lemma n_coincidence_at_filter timestamps_lst timestamps_magic p o w :
  (forall t1 t2, In t1 timestamps_lst -> In t2 timestamps_magic ->
                 coincident t1 t2 o w = true -> p t2 = true) ->
  n_coincidence_at timestamps_lst (filter p timestamps_magic) o w
  = n_coincidence_at timestamps_lst timestamps_magic o w.
Proof.
  intros H. unfold n_coincidence_at, coincidence_mask.
  induction timestamps_lst as [|t1 l IH]; [reflexivity|].
  cbn [map count_nonzero fold_right]. f_equal.
  - apply count_true_filter. intros t2 H2. apply H; [now left | exact H2].
  - apply IH. intros t1' t2 H1. apply H. now right.
Qed.

(** X4.  When the first and the last LST-1 timestamp are the smallest and
    the largest one (the table is in time order), every MAGIC event that
    passes the coincidence test with some LST-1 event at some scanned
    offset lies in the pre-filter interval, so the scan over the events
    the pre-filter keeps gives the same counts as a scan over all MAGIC
    events of the telescope. *)
Theorem prefilter_keeps_coincident (c : config)
    (timestamps_lst timestamps_magic : list Z) (t_first t_last : Z) :
  first timestamps_lst = Ok t_first ->
  final timestamps_lst = Ok t_last ->
  (forall t, In t timestamps_lst -> t_first <= t <= t_last) ->
  0 <= window_half_width c ->
  offset_start c < offset_stop c ->
  Int64.in_range (t_first + offset_start c - window_half_width c) ->
  Int64.in_range
    (t_last + last_offset (offset_start c) (offset_stop c) TIME_ACCURACY
     + window_half_width c) ->
  exists lo hi,
    time_lolim timestamps_lst (time_offsets c) (window_half_width c) = Ok lo
    /\ time_uplim timestamps_lst (time_offsets c) (window_half_width c) = Ok hi
    /\ (forall t1 t2 o,
           In t1 timestamps_lst -> In o (time_offsets c) ->
           coincident t1 t2 o (window_half_width c) = true -> lo <= t2 <= hi)
    /\ scan timestamps_lst
            (select (window_mask timestamps_magic lo hi) timestamps_magic)
            (time_offsets c) (window_half_width c)
       = scan timestamps_lst timestamps_magic (time_offsets c)
              (window_half_width c).
Proof.
  intros Hf Hl Hsorted Hw Hlt Rlo Rhi.
  set (w := window_half_width c) in *.
  set (o_last := last_offset (offset_start c) (offset_stop c) TIME_ACCURACY) in *.
  assert (Hstep : 0 < TIME_ACCURACY) by reflexivity.
  assert (Hspan : offset_start c <= o_last).
  { pose proof (first_arange (offset_start c) (offset_stop c) _ Hstep Hlt) as F.
    assert (In (offset_start c) (time_offsets c)).
    { unfold time_offsets.
      destruct (arange (offset_start c) (offset_stop c) TIME_ACCURACY);
        [discriminate | injection F as ->; now left]. }
    apply time_offsets_bounds in H. fold o_last in H. lia. }
  assert (Hft : t_first <= t_last).
  { destruct timestamps_lst as [|t l]; [discriminate|].
    injection Hf as <-. apply (Hsorted t). now left. }
  assert (R : forall z, t_first + offset_start c - w <= z <= t_last + o_last + w ->
                        Int64.in_range z).
  { unfold Int64.in_range in *. intros z Hz. lia. }
  exists (t_first + offset_start c - w), (t_last + o_last + w).
  assert (Elo : time_lolim timestamps_lst (time_offsets c) w
                = Ok (t_first + offset_start c - w)).
  { unfold time_lolim, time_offsets. rewrite Hf, first_arange by assumption.
    cbn [bind]. rewrite Int64.add_exact by (apply R; lia).
    rewrite Int64.sub_exact by (apply R; lia). reflexivity. }
  assert (Ehi : time_uplim timestamps_lst (time_offsets c) w
                = Ok (t_last + o_last + w)).
  { unfold time_uplim, time_offsets. rewrite Hl, final_arange by assumption.
    cbn [bind]. fold o_last.
    rewrite (Int64.add_exact t_last o_last) by (apply R; lia).
    rewrite Int64.add_exact by (apply R; lia). reflexivity. }
  assert (Hin : forall t1 t2 o,
             In t1 timestamps_lst -> In o (time_offsets c) ->
             coincident t1 t2 o w = true ->
             t_first + offset_start c - w <= t2 <= t_last + o_last + w).
  { intros t1 t2 o H1 Ho Hc.
    apply Hsorted in H1. apply time_offsets_bounds in Ho. fold o_last in Ho.
    apply coincident_exact in Hc; [lia | apply R; lia ..]. }
  split; [exact Elo|]. split; [exact Ehi|]. split; [exact Hin|].
  unfold scan, window_mask. rewrite select_map_filter.
  apply map_ext_in. intros o Ho.
  apply n_coincidence_at_filter. intros t1 t2 H1 _ Hc.
  apply andb_true_iff. rewrite !Z.leb_le. eapply Hin; eassumption.
Qed.

Lemma prefilter_keeps_coincident_witness :
  let c := {| window_half_width := 300; offset_start := -200; offset_stop := 200 |} in
  scan [1000000000000000000; 1000000000000100000]
       (select (window_mask [999999999999000000; 1000000000000000100]
                            (1000000000000000000 + -200 - 300)
                            (1000000000000100000 + 100 + 300))
               [999999999999000000; 1000000000000000100])
       (time_offsets c) 300
  = scan [1000000000000000000; 1000000000000100000]
         [999999999999000000; 1000000000000000100] (time_offsets c) 300.
Proof.
  intros c.
  assert (R : forall z, -1 <= z <= 2000000000000000000 -> Int64.in_range z)
    by (unfold Int64.in_range, Int64.min_signed, Int64.max_signed; lia).
  destruct (prefilter_keeps_coincident c
              [1000000000000000000; 1000000000000100000]
              [999999999999000000; 1000000000000000100]
              1000000000000000000 1000000000000100000)
    as (lo & hi & Elo & Ehi & _ & H).
  - reflexivity.
  - reflexivity.
  - intros t [<- | [<- | []]]; lia.
  - cbn. lia.
  - cbn. lia.
  - apply R. cbn. lia.
  - apply R. cbn. lia.
  - vm_compute in Elo, Ehi. injection Elo as <-. injection Ehi as <-. exact H.
Defined.

(** ** The refined offset stays within the scan (lines 250-259) *)

Lemma round_half_even_div_bounds n d a b :
  0 < d -> a * d <= n <= b * d -> a <= round_half_even_div n d <= b.
Proof.
  intros Hd H. unfold round_half_even_div.
  pose proof (Z.div_mod n d ltac:(lia)) as E.
  pose proof (Z.mod_pos_bound n d Hd) as Hr.
  set (q := n / d) in *. set (r := n mod d) in *.
  assert (a <= q) by nia.
  assert (q <= b) by nia.
  destruct (Z.ltb_spec (2 * r) d); [lia|].
  assert (q < b) by nia.
  destruct (Z.ltb_spec d (2 * r)); [lia|].
  destruct (Z.even q); lia.
Qed.

Lemma round_half_even_bounds (x : Q) (a b : Z) :
  (inject_Z a <= x)%Q -> (x <= inject_Z b)%Q -> a <= round_half_even x <= b.
Proof.
  unfold Qle, round_half_even. cbn [inject_Z Qnum Qden]. intros Ha Hb.
  apply round_half_even_div_bounds; lia.
Qed.

Lemma weighted_sum_bounds (l : list (Z * Z)) (a b : Z) :
  (forall x, In x l -> a <= fst x <= b /\ 0 <= snd x) ->
  a * sum (map snd l) <= sum (map weighted l) <= b * sum (map snd l)
  /\ 0 <= sum (map snd l).
Proof.
  induction l as [|[o n] l IH]; intros H; [cbn; lia|].
  cbn [map sum fold_right weighted fst snd].
  fold (sum (map snd l)). fold (sum (map weighted l)).
  destruct (H (o, n) (or_introl eq_refl)) as [Ho Hn]. cbn [fst snd] in Ho, Hn.
  destruct IH as [IH1 IH2]; [intros x Hx; apply H; now right|].
  assert (a * n <= o * n) by (apply Z.mul_le_mono_nonneg_r; lia).
  assert (o * n <= b * n) by (apply Z.mul_le_mono_nonneg_r; lia).
  change (weighted (o, n)) with (o * n).
  rewrite !Z.mul_add_distr_l. lia.
Qed.

(** X5.  With counts that are not negative, as the scan gives them, a
    refined offset lies between the rounded bounds of the averaging
    region and between any two bounds of the scanned offsets: the
    refinement never leaves the scan range. *)
Theorem refined_offset_within_scan (offs counts : list Z) (w r a b : Z) :
  average_offset offs counts w = Ok r ->
  (forall n, In n counts -> 0 <= n) ->
  (forall o, In o offs -> a <= o <= b) ->
  a <= r <= b
  /\ round_half_even (offset_lolim (offset_at_max offs counts) w) <= r
     <= round_half_even (offset_uplim (offset_at_max offs counts) w).
Proof.
  unfold average_offset, average_region.
  set (lo := round_half_even (offset_lolim (offset_at_max offs counts) w)).
  set (hi := round_half_even (offset_uplim (offset_at_max offs counts) w)).
  intros Havg Hcounts Hoffs.
  destruct (select_region_combine (fun o => (lo <=? o) && (o <=? hi)) offs counts)
    as [E1 E2].
  unfold average in Havg. rewrite E1, E2 in Havg.
  set (near := filter (fun x => (lo <=? fst x) && (fst x <=? hi))
                      (combine offs counts)) in *.
  destruct (Z.eqb_spec (sum (map snd near)) 0) as [E0 | Hne];
    cbn [bind] in Havg; [discriminate|].
  injection Havg as <-.
  assert (Hnear : forall x, In x near ->
             (Z.max a lo <= fst x <= Z.min b hi) /\ 0 <= snd x).
  { intros [o n] Hx. unfold near in Hx. apply filter_In in Hx as [Hx Hp].
    cbn [fst snd] in *. apply andb_true_iff in Hp. rewrite !Z.leb_le in Hp.
    pose proof (Hoffs o (in_combine_l _ _ _ _ Hx)).
    pose proof (Hcounts n (in_combine_r _ _ _ _ Hx)). lia. }
  destruct (weighted_sum_bounds near _ _ Hnear) as [[Hlo Hhi] Hpos].
  assert (Hw : (0 < inject_Z (sum (map snd near)))%Q).
  { change 0%Q with (inject_Z 0). rewrite <- Zlt_Qlt. lia. }
  assert (B : Z.max a lo
              <= round_half_even (inject_Z (sum (map weighted near))
                                  / inject_Z (sum (map snd near)))
              <= Z.min b hi).
  { apply round_half_even_bounds.
    - apply Qle_shift_div_l; [exact Hw|].
      rewrite <- inject_Z_mult, <- Zle_Qle. exact Hlo.
    - apply Qle_shift_div_r; [exact Hw|].
      rewrite <- inject_Z_mult, <- Zle_Qle. exact Hhi. }
  lia.
Qed.

Lemma refined_offset_within_scan_witness :
  average_offset [-6600; -6500; -6400] [2; 1; 0] 50 = Ok (-6567)
  /\ -6600 <= -6567 <= -6400.
Proof.
  split; [vm_compute; reflexivity|].
  destruct (refined_offset_within_scan [-6600; -6500; -6400] [2; 1; 0] 50
              (-6567) (-6600) (-6400)) as [H _].
  - vm_compute. reflexivity.
  - intros n [<- | [<- | [<- | []]]]; lia.
  - intros o [<- | [<- | [<- | []]]]; lia.
  - exact H.
Defined.

(** ** What a pass over a telescope returns (lines 171-327) *)

Lemma mapM_Forall2 {A B} (f : A -> result B) (l : list A) : forall l',
  mapM f l = Ok l' -> Forall2 (fun x y => f x = Ok y) l l'.
Proof.
  induction l as [|x l IH]; intros l' H; cbn [mapM] in H.
  - injection H as <-. constructor.
  - destruct (f x) as [y|] eqn:F; cbn [bind] in H; [|discriminate].
    destruct (mapM f l) as [ys|]; cbn [bind] in H; [|discriminate].
    injection H as <-. constructor; [exact F | apply IH; reflexivity].
Qed.

Lemma Forall2_select {A B} (R : A -> B -> Prop) (mask : list bool) :
  forall l l', Forall2 R l l' -> Forall2 R (select mask l) (select mask l').
Proof.
  induction mask as [|b mask IH]; intros l l' H; [constructor|].
  destruct H as [|x y l l' Hxy H]; [constructor|].
  cbn [select]. destruct b; [constructor|]; auto.
Qed.

Lemma Forall2_nth_error {A B} (R : A -> B -> Prop) l l' :
  Forall2 R l l' ->
  forall i x y, nth_error l i = Some x -> nth_error l' i = Some y -> R x y.
Proof.
  induction 1 as [|a b l l' Hab H IH]; intros [|i] x y Hx Hy;
    cbn in Hx, Hy; try discriminate.
  - injection Hx as <-. injection Hy as <-. exact Hab.
  - eapply IH; eassumption.
Qed.

Lemma Forall2_same_length {A B} (R : A -> B -> Prop) l l' :
  Forall2 R l l' -> List.length l = List.length l'.
Proof. induction 1; cbn; congruence. Qed.

Lemma select_In_list {A} (mask : list bool) (l : list A) x :
  In x (select mask l) -> In x l.
Proof.
  intros H. apply select_In in H as (i & _ & H). eapply nth_error_In, H.
Qed.

Lemma select_length {A} (mask : list bool) : forall (l : list A),
  List.length mask = List.length l ->
  Z.of_nat (List.length (select mask l)) = count_true mask.
Proof.
  induction mask as [|b mask IH]; intros [|x l] H; cbn in H; try discriminate;
    [reflexivity|].
  cbn [select count_true fold_right]. fold (count_true mask).
  destruct b; cbn [List.length]; rewrite <- (IH l) by lia; lia.
Qed.

(** The steps behind a pass that ends with coincident events. *)
Lemma process_telescope_coincidence w offs event_data_lst timestamps_lst
    event_data_magic tel d :
  process_telescope w offs event_data_lst timestamps_lst event_data_magic tel
  = Ok (Coincidence d) ->
  exists name all_magic lo hi,
    TEL_NAMES tel = Ok name
    /\ mapM (fun m => timestamp_magic (time_sec m) (time_nanosec m))
            (filter (fun m => magic_tel_id m =? tel) event_data_magic)
       = Ok all_magic
    /\ time_lolim timestamps_lst offs w = Ok lo
    /\ time_uplim timestamps_lst offs w = Ok hi
    /\ let mask := window_mask all_magic lo hi in
       let magic := select mask (filter (fun m => magic_tel_id m =? tel)
                                        event_data_magic) in
       let timestamps_magic := select mask all_magic in
       let counts := scan timestamps_lst timestamps_magic offs w in
       count_true mask <> 0
       /\ any counts = true
       /\ average_offset offs counts w = Ok (tel_average_offset d)
       /\ final_mask d
          = coincidence_mask timestamps_lst timestamps_magic
                             (tel_average_offset d) w
       /\ df_lst d = rows_lst event_data_lst timestamps_lst magic
                              (np_where (final_mask d))
       /\ df_magic d = rows_magic event_data_lst magic timestamps_magic
                                  (np_where (final_mask d))
       /\ n_events_at_avg d = count_nonzero (final_mask d)
       /\ n_events_magic d = count_true mask
       /\ n_coincidences d = counts.
Proof.
  unfold process_telescope.
  destruct (TEL_NAMES tel) as [name|]; cbn [bind]; [|discriminate].
  destruct (mapM _ _) as [all_magic|]; cbn [bind]; [|discriminate].
  destruct (time_lolim _ _ _) as [lo|]; cbn [bind]; [|discriminate].
  destruct (time_uplim _ _ _) as [hi|]; cbn [bind]; [|discriminate].
  destruct (Z.eqb_spec (count_true (window_mask all_magic lo hi)) 0) as [|Hn];
    [discriminate|].
  destruct (any _) eqn:Hany; cbn [negb]; [|discriminate].
  unfold refine.
  destruct (average_offset _ _ _) as [avg|] eqn:Havg; cbn [bind]; [|discriminate].
  intros H. injection H as <-.
  exists name, all_magic, lo, hi. cbn.
  repeat (split; [reflexivity || assumption|]). reflexivity.
Qed.

Lemma rows_lst_length event_data_lst timestamps_lst magic pairs :
  (forall i j, In (i, j) pairs ->
               (i < List.length event_data_lst)%nat
               /\ (i < List.length timestamps_lst)%nat
               /\ (j < List.length magic)%nat) ->
  List.length (rows_lst event_data_lst timestamps_lst magic pairs)
  = List.length pairs.
Proof.
  unfold rows_lst. induction pairs as [|[i j] pairs IH]; intros H; [reflexivity|].
  cbn [flat_map]. rewrite length_app, IH by (intros; apply H; now right).
  destruct (H i j (or_introl eq_refl)) as (H1 & H2 & H3).
  apply nth_error_Some in H1, H2, H3.
  destruct (nth_error event_data_lst i); [|congruence].
  destruct (nth_error timestamps_lst i); [|congruence].
  destruct (nth_error magic j); [|congruence].
  reflexivity.
Qed.

Lemma rows_magic_length event_data_lst magic timestamps_magic pairs :
  List.length magic = List.length timestamps_magic ->
  List.length (rows_magic event_data_lst magic timestamps_magic pairs)
  = List.length magic.
Proof.
  intros H. unfold rows_magic.
  rewrite length_map, !length_combine, length_seq. lia.
Qed.

(** X6.  A pass that ends with coincident events keeps one LST-1 row per
    coincident pair and one MAGIC row per MAGIC event that passed the
    pre-filter, at least one.  Every LST-1 row is a copy of an LST-1
    event, carries the identifiers of a MAGIC event of the telescope, and
    the two timestamps pass the coincidence test at the refined offset. *)
Theorem coincidence_rows (w : Z) (offs : list Z)
    (event_data_lst : list lst_event) (timestamps_lst : list Z)
    (event_data_magic : list magic_event) (tel : Z) (d : telescope_data) :
  mapM timestamp_lst (map lst_timestamp event_data_lst) = Ok timestamps_lst ->
  process_telescope w offs event_data_lst timestamps_lst event_data_magic tel
  = Ok (Coincidence d) ->
  Z.of_nat (List.length (df_lst d)) = n_events_at_avg d
  /\ Z.of_nat (List.length (df_magic d)) = n_events_magic d
  /\ 0 < n_events_magic d
  /\ forall r, In r (df_lst d) ->
       exists e m t1 t2,
         In e event_data_lst /\ In m event_data_magic
         /\ magic_tel_id m = tel
         /\ timestamp_lst (lst_timestamp e) = Ok t1
         /\ timestamp_magic (time_sec m) (time_nanosec m) = Ok t2
         /\ coincident t1 t2 (tel_average_offset d) w = true
         /\ r = {| obs_id_magic := magic_obs_id m;
                   event_id_magic := magic_event_id m;
                   tel_id := lst_tel_id e;
                   timestamp := t1;
                   obs_id_lst := Some (lst_obs_id e);
                   event_id_lst := Some (lst_event_id e);
                   params := lst_params e |}.
Proof.
  intros Hlst Hp.
  apply process_telescope_coincidence in Hp
    as (name & all_magic & lo & hi & Hname & Hmagic & Hlo & Hhi & Hd).
  cbv zeta in Hd.
  destruct Hd as (Hn & Hany & Havg & Hmask & Hdl & Hdm & Hna & Hnm & Hc).
  set (mask := window_mask all_magic lo hi) in *.
  set (all := filter (fun m => magic_tel_id m =? tel) event_data_magic) in *.
  set (magic := select mask all) in *.
  set (timestamps_magic := select mask all_magic) in *.
  apply mapM_Forall2 in Hlst, Hmagic.
  assert (F : Forall2 (fun m t => timestamp_magic (time_sec m) (time_nanosec m)
                                  = Ok t) magic timestamps_magic)
    by (apply Forall2_select; exact Hmagic).
  assert (Llst : List.length event_data_lst = List.length timestamps_lst).
  { apply Forall2_same_length in Hlst. now rewrite length_map in Hlst. }
  assert (Lmagic : List.length magic = List.length timestamps_magic)
    by (eapply Forall2_same_length; exact F).
  assert (Lmask : List.length mask = List.length all).
  { unfold mask, window_mask. rewrite length_map. symmetry.
    eapply Forall2_same_length; exact Hmagic. }
  assert (Hpairs : forall i j, In (i, j) (np_where (final_mask d)) ->
            exists t1 t2, nth_error timestamps_lst i = Some t1
                          /\ nth_error timestamps_magic j = Some t2
                          /\ coincident t1 t2 (tel_average_offset d) w = true).
  { intros i j Hij. unfold np_where in Hij.
    apply where_from_In in Hij as (k & row & -> & Hk & Hj). cbn [Nat.add] in *.
    rewrite Hmask in Hk. unfold coincidence_mask in Hk.
    rewrite nth_error_map in Hk.
    destruct (nth_error timestamps_lst k) as [t1|]; [|discriminate].
    cbn in Hk. injection Hk as <-. rewrite nth_error_map in Hj.
    destruct (nth_error timestamps_magic j) as [t2|]; [|discriminate].
    cbn in Hj. injection Hj as Hj. eauto. }
  split; [|split; [|split]].
  - rewrite Hdl, Hna, rows_lst_length; [apply where_from_length|].
    intros i j Hij. destruct (Hpairs i j Hij) as (t1 & t2 & H1 & H2 & _).
    assert (i < List.length timestamps_lst)%nat
      by (apply nth_error_Some; congruence).
    assert (j < List.length timestamps_magic)%nat
      by (apply nth_error_Some; congruence).
    lia.
  - rewrite Hdm, Hnm, rows_magic_length by exact Lmagic.
    apply select_length. exact Lmask.
  - rewrite Hnm. pose proof (count_true_nonneg mask). lia.
  - intros r Hr. rewrite Hdl in Hr. unfold rows_lst in Hr.
    apply in_flat_map in Hr as ([i j] & Hij & Hr).
    destruct (Hpairs i j Hij) as (t1 & t2 & H1 & H2 & Hco).
    destruct (nth_error event_data_lst i) as [e|] eqn:He; [|contradiction].
    rewrite H1 in Hr.
    destruct (nth_error magic j) as [m|] eqn:Hm; [|contradiction].
    destruct Hr as [<- | []].
    exists e, m, t1, t2.
    assert (In m all) by (eapply select_In_list, nth_error_In, Hm).
    apply filter_In in H as [Hin Htel]. apply Z.eqb_eq in Htel.
    split; [eapply nth_error_In, He|]. split; [exact Hin|].
    split; [exact Htel|]. split.
    + apply (Forall2_nth_error _ _ _ Hlst i (lst_timestamp e) t1);
        [rewrite nth_error_map, He; reflexivity | exact H1].
    + split; [apply (Forall2_nth_error _ _ _ F j m t2 Hm H2)|].
      split; [exact Hco | reflexivity].
Qed.

Lemma coincidence_rows_witness :
  exists d,
    process_telescope 50 [-6600; -6500; -6400]
      [{| lst_obs_id := 3265; lst_event_id := 1; lst_tel_id := 1;
          lst_timestamp := "1000000000.0"; lst_params := [] |}]
      [1000000000000000000]
      [{| magic_obs_id := 5093; magic_event_id := 11; magic_tel_id := 2;
          time_sec := 999999999; time_nanosec := 999993500;
          magic_params := [] |}]
      2
    = Ok (Coincidence d)
    /\ Z.of_nat (List.length (df_lst d)) = n_events_at_avg d
    /\ 0 < n_events_magic d.
Proof.
  edestruct (coincidence_rows 50 [-6600; -6500; -6400]
               [{| lst_obs_id := 3265; lst_event_id := 1; lst_tel_id := 1;
                   lst_timestamp := "1000000000.0"; lst_params := [] |}]
               [1000000000000000000]
               [{| magic_obs_id := 5093; magic_event_id := 11; magic_tel_id := 2;
                   time_sec := 999999999; time_nanosec := 999993500;
                   magic_params := [] |}]
               2) as (H1 & _ & H3 & _).
  - vm_compute. reflexivity.
  - vm_compute. reflexivity.
  - eexists. split; [vm_compute; reflexivity|]. split; [exact H1 | exact H3].
Defined.

(** ** When the run exits early (lines 171-331) *)

Lemma coincidence_df_magic_nonempty w offs event_data_lst timestamps_lst
    event_data_magic tel d :
  process_telescope w offs event_data_lst timestamps_lst event_data_magic tel
  = Ok (Coincidence d) ->
  df_magic d <> [].
Proof.
  intros Hp.
  apply process_telescope_coincidence in Hp
    as (name & all_magic & lo & hi & _ & Hmagic & _ & _ & Hd).
  cbv zeta in Hd. destruct Hd as (Hn & _ & _ & _ & _ & Hdm & _).
  apply mapM_Forall2 in Hmagic.
  set (mask := window_mask all_magic lo hi) in *.
  set (all := filter (fun m => magic_tel_id m =? tel) event_data_magic) in *.
  assert (F : Forall2 (fun m t => timestamp_magic (time_sec m) (time_nanosec m)
                                  = Ok t) (select mask all) (select mask all_magic))
    by (apply Forall2_select; exact Hmagic).
  assert (L : Z.of_nat (List.length (df_magic d)) = count_true mask).
  { rewrite Hdm, rows_magic_length by (eapply Forall2_same_length; exact F).
    apply select_length. unfold mask, window_mask. rewrite length_map.
    symmetry. eapply Forall2_same_length; exact Hmagic. }
  intros E. rewrite E in L. cbn in L. congruence.
Qed.

Lemma telescopes_loop_grows w offs event_data_lst timestamps_lst
    event_data_magic tel_ids : forall t t',
  telescopes_loop w offs event_data_lst timestamps_lst event_data_magic
                  tel_ids t = Ok t' ->
  (List.length (event_data t) <= List.length (event_data t'))%nat.
Proof.
  induction tel_ids as [|tel tel_ids IH]; intros t t' H.
  - cbn in H. injection H as <-. apply Nat.le_refl.
  - cbn [telescopes_loop] in H.
    destruct (process_telescope w offs event_data_lst timestamps_lst
                                event_data_magic tel) as [[| |d]|];
      cbn [bind] in H; try discriminate; try (apply IH; exact H).
    apply IH in H. unfold add_telescope in H. cbn [event_data] in H.
    rewrite length_app in H. lia.
Qed.

Lemma telescopes_loop_empty w offs event_data_lst timestamps_lst
    event_data_magic tel_ids : forall t t',
  telescopes_loop w offs event_data_lst timestamps_lst event_data_magic
                  tel_ids t = Ok t' ->
  event_data t' = [] ->
  forall tel, In tel tel_ids ->
              skipped (process_telescope w offs event_data_lst timestamps_lst
                                         event_data_magic tel).
Proof.
  induction tel_ids as [|tel tel_ids IH]; intros t t' H He tel' Htel';
    [contradiction|].
  cbn [telescopes_loop] in H.
  destruct (process_telescope w offs event_data_lst timestamps_lst
                              event_data_magic tel) as [[| |d]|] eqn:P;
    cbn [bind] in H; try discriminate.
  - destruct Htel' as [<- | Htel']; [rewrite P; now left | eapply IH; eassumption].
  - destruct Htel' as [<- | Htel']; [rewrite P; now right | eapply IH; eassumption].
  - exfalso. apply telescopes_loop_grows in H.
    rewrite He in H. unfold add_telescope in H. cbn [event_data List.length] in H.
    rewrite !length_app in H.
    pose proof (coincidence_df_magic_nonempty _ _ _ _ _ _ _ P) as Hne.
    destruct (df_magic d); [congruence | cbn in H; lia].
Qed.

(** X7.  Once the LST-1 timestamps are read, the run ends with
    [sys.exit()] exactly when every MAGIC telescope is skipped, and the
    exit status is always 0: a run with a coincidence for some telescope
    never exits early. *)
Theorem exit_iff_all_skipped (c : config) (event_data_lst : list lst_event)
    (event_data_magic : list magic_event) (timestamps_lst : list Z) :
  mapM timestamp_lst (map lst_timestamp event_data_lst) = Ok timestamps_lst ->
  (forall status,
      event_coincidence c event_data_lst event_data_magic = Exited status
      -> status = 0)
  /\ (event_coincidence c event_data_lst event_data_magic = Exited 0
      <-> forall tel, In tel (np_unique (map magic_tel_id event_data_magic)) ->
            skipped (process_telescope (window_half_width c) (time_offsets c)
                       event_data_lst timestamps_lst event_data_magic tel)).
Proof.
  intros Hts. split.
  - intros status. unfold event_coincidence.
    destruct (merged_tables c event_data_lst event_data_magic) as [t|];
      [|discriminate].
    destruct (empty (event_data t)); [congruence | discriminate].
  - split.
    + unfold event_coincidence, merged_tables. rewrite Hts. cbn [bind].
      destruct (telescopes_loop _ _ _ _ _ _ _) as [t|] eqn:L; [|discriminate].
      destruct (event_data t) as [|r rows] eqn:E; cbn [empty]; [|discriminate].
      intros _. eapply telescopes_loop_empty; eassumption.
    + intros H. eapply all_skipped_empty; eassumption.
Qed.

Lemma exit_iff_all_skipped_witness :
  let c :=
    {| window_half_width := 300; offset_start := -200; offset_stop := 200 |} in
  let event_data_lst :=
    [{| lst_obs_id := 3265; lst_event_id := 1; lst_tel_id := 1;
        lst_timestamp := "1000000000.0"; lst_params := [] |}] in
  let event_data_magic :=
    [{| magic_obs_id := 5093; magic_event_id := 11; magic_tel_id := 2;
        time_sec := 1000000900; time_nanosec := 0; magic_params := [] |}] in
  mapM timestamp_lst (map lst_timestamp event_data_lst)
  = Ok [1000000000000000000]
  /\ skipped (process_telescope (window_half_width c) (time_offsets c)
                event_data_lst [1000000000000000000] event_data_magic 2).
Proof.
  intros c event_data_lst event_data_magic.
  assert (Hts : mapM timestamp_lst (map lst_timestamp event_data_lst)
                = Ok [1000000000000000000]) by (vm_compute; reflexivity).
  split; [exact Hts|].
  destruct (exit_iff_all_skipped c event_data_lst event_data_magic
              [1000000000000000000] Hts) as [_ H].
  apply (proj1 H); [vm_compute; reflexivity | left; reflexivity].
Defined.

(** ** The feature and profile tables (lines 301-327) *)

Lemma insert_unique_In x l y : In y (insert_unique x l) <-> y = x \/ In y l.
Proof.
  induction l as [|z l IH]; cbn [insert_unique].
  - cbn. intuition.
  - destruct (Z.ltb_spec x z); [cbn; intuition|].
    destruct (Z.eqb_spec x z) as [-> | Hne].
    + cbn. intuition.
    + cbn [In]. rewrite IH. intuition.
Qed.


Lemma np_unique_In l x : In x (np_unique l) <-> In x l.
Proof.
  induction l as [|y l IH]; [reflexivity|].
  cbn [np_unique fold_right]. fold (np_unique l).
  rewrite insert_unique_In, IH. cbn. intuition.
Qed.







(** ** Resolved identifiers within a MAGIC event (lines 345-353) *)

Lemma group_values_same_group col data r r' :
  obs_id_magic r = obs_id_magic r' ->
  event_id_magic r = event_id_magic r' ->
  group_values col data r = group_values col data r'.
Proof.
  intros H1 H2. unfold group_values, same_group. now rewrite H1, H2.
Qed.

(** X9.  All rows that belong to the same MAGIC event, that is with the
    same (obs_id_magic, event_id_magic), get the same resolved run and
    the same resolved event: the LST-1 row and the MAGIC rows of a
    coincidence end up under one key. *)
Theorem resolved_key_shared (data : list row) (r r' : row) :
  obs_id_magic r = obs_id_magic r' ->
  event_id_magic r = event_id_magic r' ->
  obs_id (resolve data r) = obs_id (resolve data r')
  /\ event_id (resolve data r) = event_id (resolve data r').
Proof.
  intros H1 H2. unfold resolve, group_mean.
  rewrite (group_values_same_group obs_id_lst data r r' H1 H2).
  rewrite (group_values_same_group event_id_lst data r r' H1 H2).
  destruct (group_values obs_id_lst data r'); cbn [obs_id event_id];
    [rewrite H1, H2|]; split; reflexivity.
Qed.

Lemma resolved_key_shared_witness :
  let lst_row := {| obs_id_magic := 5093; event_id_magic := 11; tel_id := 1;
                    timestamp := 1000000000000000000;
                    obs_id_lst := Some 3265; event_id_lst := Some 7;
                    params := [1] |} in
  let m1_row := {| obs_id_magic := 5093; event_id_magic := 11; tel_id := 2;
                   timestamp := 999999999999993500;
                   obs_id_lst := Some 3265; event_id_lst := Some 7;
                   params := [2] |} in
  obs_id (resolve [lst_row; m1_row] lst_row)
  = obs_id (resolve [lst_row; m1_row] m1_row).
Proof.
  intros lst_row m1_row.
  apply (resolved_key_shared [lst_row; m1_row] lst_row m1_row); reflexivity.
Defined.

Lemma sum_constant (l : list Z) (v : Z) :
  (forall x, In x l -> x = v) -> sum l = v * Z.of_nat (List.length l).
Proof.
  induction l as [|x l IH]; intros H; [cbn; lia|].
  cbn [sum fold_right List.length]. fold (sum l).
  rewrite (H x (or_introl eq_refl)), IH by (intros y Hy; apply H; now right).
  lia.
Qed.

Lemma mean_constant (l : list Z) (v : Z) :
  l <> [] -> (forall x, In x l -> x = v) -> (mean l == inject_Z v)%Q.
Proof.
  intros Hne H. unfold mean. rewrite (sum_constant l v H), inject_Z_mult.
  field. destruct l; [congruence|]. unfold Qeq. cbn. lia.
Qed.

(** X10.  When the rows of a MAGIC event that carry LST-1 identifiers all
    carry the same ones, the resolved key of every row of that MAGIC
    event is exactly that LST-1 (run, event): the mean changes nothing. *)
Theorem resolved_key_single_match (data : list row) (r x : row) (run ev : Z) :
  In x data ->
  obs_id_magic x = obs_id_magic r ->
  event_id_magic x = event_id_magic r ->
  obs_id_lst x = Some run ->
  event_id_lst x = Some ev ->
  (forall y, In y data ->
             obs_id_magic y = obs_id_magic r ->
             event_id_magic y = event_id_magic r ->
             (forall v, obs_id_lst y = Some v -> v = run)
             /\ (forall v, event_id_lst y = Some v -> v = ev)) ->
  exists q q',
    obs_id (resolve data r) = Some q /\ event_id (resolve data r) = Some q'
    /\ (q == inject_Z run)%Q /\ (q' == inject_Z ev)%Q.
Proof.
  intros Hx G1 G2 Hrun Hev Hall.
  assert (R : group_values obs_id_lst data r <> []).
  { intros E.
    assert (In run (group_values obs_id_lst data r))
      by (apply group_values_spec; eauto).
    rewrite E in H. contradiction. }
  assert (V : group_values event_id_lst data r <> []).
  { intros E.
    assert (In ev (group_values event_id_lst data r))
      by (apply group_values_spec; eauto).
    rewrite E in H. contradiction. }
  exists (mean (group_values obs_id_lst data r)),
         (mean (group_values event_id_lst data r)).
  unfold resolve. rewrite (group_mean_some obs_id_lst data r R).
  cbn [obs_id event_id]. rewrite (group_mean_some event_id_lst data r V).
  split; [reflexivity|]. split; [reflexivity|]. split.
  - apply mean_constant; [exact R|].
    intros v Hv. apply group_values_spec in Hv as (y & Hy & Y1 & Y2 & Yv).
    destruct (Hall y Hy Y1 Y2) as [H _]. auto.
  - apply mean_constant; [exact V|].
    intros v Hv. apply group_values_spec in Hv as (y & Hy & Y1 & Y2 & Yv).
    destruct (Hall y Hy Y1 Y2) as [_ H]. auto.
Qed.

Lemma resolved_key_single_match_witness :
  let lst_row := {| obs_id_magic := 5093; event_id_magic := 11; tel_id := 1;
                    timestamp := 1000000000000000000;
                    obs_id_lst := Some 3265; event_id_lst := Some 7;
                    params := [1] |} in
  let m2_row := {| obs_id_magic := 5093; event_id_magic := 11; tel_id := 3;
                   timestamp := 999999999999993500;
                   obs_id_lst := None; event_id_lst := None;
                   params := [3] |} in
  exists q q',
    obs_id (resolve [lst_row; m2_row] m2_row) = Some q
    /\ event_id (resolve [lst_row; m2_row] m2_row) = Some q'
    /\ (q == inject_Z 3265)%Q /\ (q' == inject_Z 7)%Q.
Proof.
  intros lst_row m2_row.
  apply (resolved_key_single_match [lst_row; m2_row] m2_row lst_row 3265 7).
  - now left.
  - reflexivity.
  - reflexivity.
  - reflexivity.
  - reflexivity.
  - intros y [<- | [<- | []]] _ _; cbn; split; intros v E; congruence.
Defined.

(** ** Reading the timestamps (lines 164-166 and 176-180) *)

(** X11.  [str] of an integer read back by [Decimal] is that integer, with
    exponent 0, so [str] never maps two integers to the same text. *)
Theorem str_decimal_round_trip (z z' : Z) :
  PyDecimal.of_string (py_str z) = Ok (PyDecimal.mk z 0)
  /\ PyDecimal.to_int (PyDecimal.mk z 0) = z
  /\ (py_str z = py_str z' -> z = z').
Proof.
  split; [apply of_string_py_str|]. split.
  - rewrite to_int_nonneg_exp by lia. rewrite Z.pow_0_r. lia.
  - intros E.
    pose proof (of_string_py_str z) as H. rewrite E, of_string_py_str in H.
    congruence.
Qed.

Lemma timestamp_magic_value (sec nsec : Z) :
  Int64.in_range sec ->
  timestamp_magic sec nsec
  = (if Z.abs (sec * 10 ^ 9 + nsec) <? 10 ^ PyDecimal.prec
     then Int64.of_int (sec * 10 ^ 9 + nsec)
     else timestamp_magic sec nsec).
Proof.
  intros Hsec.
  destruct (Z.ltb_spec (Z.abs (sec * 10 ^ 9 + nsec)) (10 ^ PyDecimal.prec));
    [|reflexivity].
  unfold timestamp_magic. rewrite !of_string_py_str. cbn [bind].
  rewrite mul_SEC2NSEC by (apply int64_lt_prec; exact Hsec).
  unfold PyDecimal.add. cbn [PyDecimal.coef PyDecimal.exp].
  change (Z.min (0 + 9) 0) with 0.
  replace (sec * 10 ^ (0 + 9 - 0) + nsec * 10 ^ (0 - 0))
    with (sec * 10 ^ 9 + nsec)
    by (change (10 ^ (0 - 0)) with 1; change (0 + 9 - 0) with 9; lia).
  rewrite fix_prec_small by (cbn [PyDecimal.coef]; assumption).
  rewrite to_int_nonneg_exp by lia.
  now rewrite Z.pow_0_r, Z.mul_1_r.
Qed.

(** X12.  For int64 time fields the MAGIC timestamp is seconds * 10^9 +
    nanoseconds when that fits int64, and the conversion raises
    OverflowError when it does not: the sum never wraps around. *)
Theorem timestamp_magic_total (sec nsec : Z) :
  Int64.in_range sec ->
  Int64.in_range nsec ->
  (Int64.in_range (sec * 10 ^ 9 + nsec) ->
   timestamp_magic sec nsec = Ok (sec * 10 ^ 9 + nsec))
  /\ (~ Int64.in_range (sec * 10 ^ 9 + nsec) ->
      timestamp_magic sec nsec = Raise OverflowError).
Proof.
  intros Hsec Hnsec.
  assert (E : timestamp_magic sec nsec = Int64.of_int (sec * 10 ^ 9 + nsec)).
  { rewrite (timestamp_magic_value sec nsec Hsec).
    destruct (Z.ltb_spec (Z.abs (sec * 10 ^ 9 + nsec)) (10 ^ PyDecimal.prec))
      as [_ | Hbig]; [reflexivity|].
    exfalso. unfold Int64.in_range, Int64.min_signed, Int64.max_signed,
      PyDecimal.prec in *. lia. }
  rewrite E. unfold Int64.of_int. split; intros H.
  - apply Int64.in_rangeb_spec in H. now rewrite H.
  - destruct (Int64.in_rangeb (sec * 10 ^ 9 + nsec)) eqn:B; [|reflexivity].
    apply Int64.in_rangeb_spec in B. contradiction.
Qed.

Lemma timestamp_magic_total_witness :
  timestamp_magic 1620000000 999999999 = Ok (1620000000 * 10 ^ 9 + 999999999)
  /\ timestamp_magic 9223372037 0 = Raise OverflowError.
Proof.
  assert (R : forall z, -1 <= z <= 2000000000000000000 -> Int64.in_range z)
    by (unfold Int64.in_range, Int64.min_signed, Int64.max_signed; lia).
  split.
  - apply (timestamp_magic_total 1620000000 999999999); apply R; lia.
  - apply (timestamp_magic_total 9223372037 0); [apply R; lia | apply R; lia|].
    unfold Int64.in_range, Int64.min_signed, Int64.max_signed. lia.
Defined.

Lemma quot_abs_bounds (a b : Z) :
  0 < b -> Z.abs (Z.quot a b) * b <= Z.abs a < (Z.abs (Z.quot a b) + 1) * b.
Proof.
  intros Hb.
  assert (E : Z.abs (Z.quot a b) = Z.abs a / b).
  { rewrite <- Z.quot_abs by lia. rewrite (Z.abs_eq b) by lia.
    apply Z.quot_div_nonneg; [apply Z.abs_nonneg | exact Hb]. }
  rewrite E.
  pose proof (Z.div_mod (Z.abs a) b ltac:(lia)).
  pose proof (Z.mod_pos_bound (Z.abs a) b Hb). lia.
Qed.

(** X13.  A timestamp text with more than nine fractional digits is cut
    toward zero to whole nanoseconds: the digits below one nanosecond are
    dropped, not rounded, for negative values as well. *)
Theorem timestamp_lst_truncates (s : string) (d : PyDecimal.t) :
  PyDecimal.of_string s = Ok d ->
  PyDecimal.exp d < -9 ->
  Z.abs (PyDecimal.coef d) < 10 ^ PyDecimal.prec ->
  let k := - (PyDecimal.exp d + 9) in
  let n := Z.quot (PyDecimal.coef d) (10 ^ k) in
  timestamp_lst s = Int64.of_int n
  /\ Z.abs n * 10 ^ k <= Z.abs (PyDecimal.coef d) < (Z.abs n + 1) * 10 ^ k
  /\ 0 <= n * PyDecimal.coef d.
Proof.
  intros Hs He Hc k n.
  assert (Hk : 0 < 10 ^ k) by (apply Z.pow_pos_nonneg; unfold k; lia).
  split; [|split].
  - unfold timestamp_lst. rewrite Hs. cbn [bind].
    rewrite mul_SEC2NSEC by exact Hc.
    unfold PyDecimal.to_int. cbn [PyDecimal.coef PyDecimal.exp].
    destruct (Z.leb_spec 0 (PyDecimal.exp d + 9)); [lia|]. reflexivity.
  - apply quot_abs_bounds. exact Hk.
  - unfold n.
    destruct (Z.le_ge_cases 0 (PyDecimal.coef d)) as [Hp | Hn].
    + apply Z.mul_nonneg_nonneg; [apply Z.quot_pos; lia | exact Hp].
    + assert (Z.quot (PyDecimal.coef d) (10 ^ k) <= 0).
      { rewrite <- (Z.opp_involutive (PyDecimal.coef d)).
        rewrite Z.quot_opp_l by lia.
        assert (0 <= Z.quot (- PyDecimal.coef d) (10 ^ k))
          by (apply Z.quot_pos; lia).
        lia. }
      nia.
Qed.

Lemma timestamp_lst_truncates_witness :
  timestamp_lst "-0.0000000019" = Ok (-1).
Proof.
  destruct (timestamp_lst_truncates "-0.0000000019" (PyDecimal.mk (-19) (-10)))
    as [H _].
  - reflexivity.
  - reflexivity.
  - reflexivity.
  - rewrite H. reflexivity.
Defined.

(** ** Exceptions of a run (lines 164-189) *)

Lemma mapM_ok {A B} (f : A -> result B) (l : list A) :
  (forall x, In x l -> exists y, f x = Ok y) -> exists l', mapM f l = Ok l'.
Proof.
  induction l as [|x l IH]; intros H; [exists []; reflexivity|].
  destruct (H x (or_introl eq_refl)) as (y & Hy).
  destruct IH as (l' & Hl'); [intros z Hz; apply H; now right|].
  exists (y :: l'). cbn [mapM]. rewrite Hy. cbn [bind]. rewrite Hl'. reflexivity.
Qed.

Lemma mapM_nil_inv {A B} (f : A -> result B) (l : list A) :
  mapM f l = Ok [] -> l = [].
Proof.
  destruct l as [|x l]; [reflexivity|]. cbn [mapM].
  destruct (f x); cbn [bind]; [|discriminate].
  destruct (mapM f l); cbn [bind]; discriminate.
Qed.

Lemma np_unique_head (l : list Z) :
  l <> [] -> exists tel tel_ids, np_unique l = tel :: tel_ids /\ In tel l.
Proof.
  intros Hne. destruct (np_unique l) as [|tel tel_ids] eqn:E.
  - destruct l as [|x l]; [congruence|].
    assert (In x (np_unique (x :: l))) by (apply np_unique_In; now left).
    rewrite E in H. contradiction.
  - exists tel, tel_ids. split; [reflexivity|].
    apply np_unique_In. rewrite E. now left.
Qed.

(** X14.  With MAGIC events whose telescope ids are 1, 2 or 3 and whose
    time fields are valid, a run over an empty LST-1 table, or with a scan
    range whose stop bound is not above its start bound, raises
    IndexError: the pre-filter reads the first LST-1 timestamp and the
    first scanned offset. *)
Theorem empty_input_raises_IndexError (c : config)
    (event_data_lst : list lst_event) (event_data_magic : list magic_event)
    (timestamps_lst : list Z) :
  mapM timestamp_lst (map lst_timestamp event_data_lst) = Ok timestamps_lst ->
  event_data_magic <> [] ->
  (forall m, In m event_data_magic ->
             1 <= magic_tel_id m <= 3
             /\ Int64.in_range (time_sec m)
             /\ Int64.in_range (time_nanosec m)
             /\ Int64.in_range (time_sec m * 10 ^ 9 + time_nanosec m)) ->
  event_data_lst = [] \/ offset_stop c <= offset_start c ->
  event_coincidence c event_data_lst event_data_magic = Raised IndexError.
Proof.
  intros Hts Hne Hmagic Hempty.
  destruct (np_unique_head (map magic_tel_id event_data_magic))
    as (tel & tel_ids & Eu & Htel).
  { destruct event_data_magic; [congruence | discriminate]. }
  apply in_map_iff in Htel as (m0 & <- & Hm0).
  assert (Hname : exists name, TEL_NAMES (magic_tel_id m0) = Ok name).
  { destruct (Hmagic m0 Hm0) as (Hid & _). unfold TEL_NAMES.
    destruct (Z.eqb_spec (magic_tel_id m0) 1); [eauto|].
    destruct (Z.eqb_spec (magic_tel_id m0) 2); [eauto|].
    destruct (Z.eqb_spec (magic_tel_id m0) 3); [eauto | lia]. }
  destruct Hname as (name & Hname).
  destruct (mapM_ok (fun m => timestamp_magic (time_sec m) (time_nanosec m))
              (filter (fun m => magic_tel_id m =? magic_tel_id m0)
                      event_data_magic)) as (all_magic & Hall).
  { intros m Hm. apply filter_In in Hm as [Hm _].
    destruct (Hmagic m Hm) as (_ & R1 & R2 & R3).
    exists (time_sec m * 10 ^ 9 + time_nanosec m).
    rewrite (timestamp_magic_value _ _ R1).
    destruct (Z.ltb_spec (Z.abs (time_sec m * 10 ^ 9 + time_nanosec m))
                         (10 ^ PyDecimal.prec)) as [_ | Hbig].
    - unfold Int64.of_int. apply Int64.in_rangeb_spec in R3. now rewrite R3.
    - apply int64_lt_prec in R3. lia. }
  assert (Hlo : time_lolim timestamps_lst (time_offsets c) (window_half_width c)
                = Raise IndexError).
  { unfold time_lolim. destruct Hempty as [-> | Hgrid].
    - cbn in Hts. injection Hts as <-. reflexivity.
    - destruct timestamps_lst as [|t l]; [reflexivity|]. cbn [first bind].
      unfold time_offsets, arange.
      pose proof (cdiv_spec (offset_stop c - offset_start c) TIME_ACCURACY
                            eq_refl) as Hc.
      replace (Z.to_nat (cdiv (offset_stop c - offset_start c) TIME_ACCURACY))
        with 0%nat by (unfold TIME_ACCURACY in *; nia).
      reflexivity. }
  unfold event_coincidence, merged_tables. rewrite Hts. cbn [bind].
  rewrite Eu. cbn [telescopes_loop].
  unfold process_telescope. rewrite Hname. cbn [bind]. rewrite Hall. cbn [bind].
  rewrite Hlo. reflexivity.
Qed.

Lemma empty_input_raises_IndexError_witness :
  event_coincidence
    {| window_half_width := 300; offset_start := 200; offset_stop := 200 |}
    [{| lst_obs_id := 3265; lst_event_id := 1; lst_tel_id := 1;
        lst_timestamp := "1000000000.0"; lst_params := [] |}]
    [{| magic_obs_id := 5093; magic_event_id := 11; magic_tel_id := 2;
        time_sec := 1000000000; time_nanosec := 0; magic_params := [] |}]
  = Raised IndexError.
Proof.
  assert (R : forall z, -1 <= z <= 2000000000000000000 -> Int64.in_range z)
    by (unfold Int64.in_range, Int64.min_signed, Int64.max_signed; lia).
  apply (empty_input_raises_IndexError _ _ _ [1000000000000000000]).
  - reflexivity.
  - discriminate.
  - intros m [<- | []]. cbn. repeat split; try lia; apply R; lia.
  - right. cbn. lia.
Defined.

(** X15.  When the LST-1 timestamps are read and no MAGIC event has a
    telescope id among 1, 2 and 3, a run over a non-empty MAGIC table
    raises KeyError at the lookup of the telescope name, before any MAGIC
    timestamp is read. *)
Theorem unknown_telescope_raises_KeyError (c : config)
    (event_data_lst : list lst_event) (event_data_magic : list magic_event)
    (timestamps_lst : list Z) :
  mapM timestamp_lst (map lst_timestamp event_data_lst) = Ok timestamps_lst ->
  event_data_magic <> [] ->
  (forall m, In m event_data_magic -> ~ 1 <= magic_tel_id m <= 3) ->
  event_coincidence c event_data_lst event_data_magic = Raised KeyError.
Proof.
  intros Hts Hne Hmagic.
  destruct (np_unique_head (map magic_tel_id event_data_magic))
    as (tel & tel_ids & Eu & Htel).
  { destruct event_data_magic; [congruence | discriminate]. }
  apply in_map_iff in Htel as (m0 & <- & Hm0).
  specialize (Hmagic m0 Hm0).
  assert (Hname : TEL_NAMES (magic_tel_id m0) = Raise KeyError).
  { unfold TEL_NAMES.
    destruct (Z.eqb_spec (magic_tel_id m0) 1); [lia|].
    destruct (Z.eqb_spec (magic_tel_id m0) 2); [lia|].
    destruct (Z.eqb_spec (magic_tel_id m0) 3); [lia | reflexivity]. }
  unfold event_coincidence, merged_tables. rewrite Hts. cbn [bind].
  rewrite Eu. cbn [telescopes_loop].
  unfold process_telescope. rewrite Hname. reflexivity.
Qed.

Lemma unknown_telescope_raises_KeyError_witness :
  event_coincidence
    {| window_half_width := 300; offset_start := -200; offset_stop := 200 |}
    [{| lst_obs_id := 3265; lst_event_id := 1; lst_tel_id := 1;
        lst_timestamp := "1000000000.0"; lst_params := [] |}]
    [{| magic_obs_id := 5093; magic_event_id := 11; magic_tel_id := 5;
        time_sec := 1000000000; time_nanosec := 0; magic_params := [] |}]
  = Raised KeyError.
Proof.
  apply (unknown_telescope_raises_KeyError _ _ _ [1000000000000000000]).
  - reflexivity.
  - discriminate.
  - intros m [<- | []]. cbn. lia.
Defined.

(** * Loading the tables ([magicctapipe/io/io.py]) *)

(** ** Duplicated event ids of the LST-1 table
    ([load_lst_data_file], lines 335-347)

    [event_ids, counts = np.unique(event_id level, return_counts=True)];
    when some count exceeds 1 the rows with such an event id are removed
    by [query("event_id != [...]")] and a warning is logged. *)

Definition occurrences (ids : list Z) (x : Z) : Z :=
  Z.of_nat (count_occ Z.eq_dec ids x).

(** [event_ids[counts > 1].tolist()] *)
Definition event_ids_dup (event_data : list lst_event) : list Z :=
  let ids := map lst_event_id event_data in
  filter (fun x => 1 <? occurrences ids x) (np_unique ids).

Definition isin (x : Z) (l : list Z) : bool := existsb (Z.eqb x) l.

(** The table after the check, and whether the warning is logged. *)
Definition exclude_duplicated_event_ids (event_data : list lst_event)
    : list lst_event * bool :=
  let dup := event_ids_dup event_data in
  if empty dup then (event_data, false)
  else (filter (fun e => negb (isin (lst_event_id e) dup)) event_data, true).

Lemma isin_In x l : isin x l = true <-> In x l.
Proof.
  unfold isin. rewrite existsb_exists. split.
  - intros (y & Hy & E). apply Z.eqb_eq in E. now subst.
  - intros H. exists x. split; [exact H | apply Z.eqb_refl].
Qed.

Lemma event_ids_dup_In event_data x :
  In x (event_ids_dup event_data)
  <-> 1 < occurrences (map lst_event_id event_data) x.
Proof.
  unfold event_ids_dup. rewrite filter_In, np_unique_In, Z.ltb_lt. split.
  - tauto.
  - intros H. split; [|exact H].
    apply (count_occ_In Z.eq_dec). unfold occurrences in H. lia.
Qed.

Lemma occurrences_filter_le {A} (f : A -> Z) (p : A -> bool) (l : list A) x :
  occurrences (map f (filter p l)) x <= occurrences (map f l) x.
Proof.
  unfold occurrences. induction l as [|a l IH]; [cbn; lia|].
  cbn [filter map]. destruct (p a); cbn [map count_occ];
    destruct (Z.eq_dec (f a) x); lia.
Qed.

Lemma kept_once_unique {A} (f : A -> Z) (l : list A) :
  NoDup (map f (filter (fun a => occurrences (map f l) (f a) =? 1) l)).
Proof.
  apply (NoDup_count_occ Z.eq_dec). intros x.
  set (kept := filter (fun a => occurrences (map f l) (f a) =? 1) l).
  destruct (in_dec Z.eq_dec x (map f kept)) as [Hin | Hout].
  - apply in_map_iff in Hin as (a & <- & Ha).
    apply filter_In in Ha as [_ Ha]. apply Z.eqb_eq in Ha.
    pose proof (occurrences_filter_le f
                  (fun a => occurrences (map f l) (f a) =? 1) l (f a)) as Hle.
    fold kept in Hle. unfold occurrences in *. lia.
  - apply (count_occ_not_In Z.eq_dec) in Hout. lia.
Qed.

(** X16.  After the check of [load_lst_data_file] no event id occurs
    twice.  The rows kept are exactly the rows whose event id occurs once
    in the table, in their order: every copy of a repeated event id is
    removed, whatever its run.  The warning is logged exactly when some
    event id is repeated, and the table is unchanged otherwise. *)
Theorem duplicated_event_ids_excluded (event_data : list lst_event) :
  let ids := map lst_event_id event_data in
  let out := fst (exclude_duplicated_event_ids event_data) in
  let warned := snd (exclude_duplicated_event_ids event_data) in
  NoDup (map lst_event_id out)
  /\ out = filter (fun e => occurrences ids (lst_event_id e) =? 1) event_data
  /\ (warned = false <-> NoDup ids)
  /\ (warned = false -> out = event_data).
Proof.
  cbv zeta.
  set (ids := map lst_event_id event_data).
  assert (Hpos : forall e, In e event_data -> 1 <= occurrences ids (lst_event_id e)).
  { intros e He. unfold occurrences, ids.
    assert (In (lst_event_id e) (map lst_event_id event_data))
      by (apply in_map; exact He).
    apply (count_occ_In Z.eq_dec) in H. lia. }
  assert (Hclean : event_ids_dup event_data = [] <-> NoDup ids).
  { rewrite (NoDup_count_occ Z.eq_dec). split.
    - intros E x.
      destruct (Z.ltb_spec 1 (occurrences ids x)) as [Hgt | Hle];
        [|unfold occurrences in Hle; lia].
      apply event_ids_dup_In in Hgt. rewrite E in Hgt. contradiction.
    - intros H. destruct (event_ids_dup event_data) as [|x l] eqn:E;
        [reflexivity|].
      assert (Hx : In x (event_ids_dup event_data)) by (rewrite E; now left).
      apply event_ids_dup_In in Hx. specialize (H x).
      fold ids in Hx. unfold occurrences in Hx. lia. }
  assert (Hfilter :
            filter (fun e => negb (isin (lst_event_id e) (event_ids_dup event_data)))
                   event_data
            = filter (fun e => occurrences ids (lst_event_id e) =? 1) event_data).
  { apply filter_ext_in. intros e He. specialize (Hpos e He).
    destruct (isin (lst_event_id e) (event_ids_dup event_data)) eqn:I; cbn [negb].
    - apply isin_In, event_ids_dup_In in I. fold ids in I.
      symmetry. apply Z.eqb_neq. lia.
    - assert (~ 1 < occurrences ids (lst_event_id e)).
      { intros Hgt. apply event_ids_dup_In, isin_In in Hgt. congruence. }
      symmetry. apply Z.eqb_eq. lia. }
  assert (Hsame : NoDup ids ->
            filter (fun e => occurrences ids (lst_event_id e) =? 1) event_data
            = event_data).
  { intros Hnd. apply forallb_filter_id. apply forallb_forall. intros e He.
    apply Z.eqb_eq. specialize (Hpos e He).
    rewrite (NoDup_count_occ Z.eq_dec) in Hnd.
    specialize (Hnd (lst_event_id e)). unfold occurrences in *. lia. }
  unfold exclude_duplicated_event_ids.
  destruct (event_ids_dup event_data) as [|x l] eqn:E; cbn [empty fst snd].
  - assert (Hnd : NoDup ids) by (apply Hclean; reflexivity).
    split; [exact Hnd|]. split; [symmetry; apply Hsame, Hnd|].
    split; [tauto | reflexivity].
  - rewrite Hfilter.
    split; [apply kept_once_unique|]. split; [reflexivity|].
    split; [|discriminate].
    split; [discriminate|].
    intros Hnd. apply Hclean in Hnd. congruence.
Qed.

(** ** Stereo events ([get_stereo_events], lines 53-68 and 98-154)

    The table is taken with the index GROUP_INDEX + tel_id, as
    [load_train_data_file] sets it (line 481), so that a value computed
    per group is read by every row of the group.  [quality_cuts] is the
    query string, given as the test it performs on a row. *)

(** A row: the GROUP_INDEX (obs_id, event_id, true_alt, true_az), the
    telescope id and the remaining columns. *)
Record shower_event : Type := {
  shower_obs_id : Z;
  shower_event_id : Z;
  true_alt : Q;
  true_az : Q;
  shower_tel_id : Z;
  shower_params : list Z
}.

(** A row with the columns that [get_stereo_events] adds; a combination
    type that was never assigned is a missing value. *)
Record stereo_event : Type := {
  shower : shower_event;
  multiplicity : Z;
  combo_type : option Z
}.

Definition TEL_COMBINATIONS : list (string * list Z) :=
  [("m1_m2"%string, [2; 3]);
   ("lst1_m1"%string, [1; 2]);
   ("lst1_m2"%string, [1; 3]);
   ("lst1_m1_m2"%string, [1; 2; 3])].

(** Equal GROUP_INDEX. *)
Definition same_shower (a b : shower_event) : bool :=
  (shower_obs_id a =? shower_obs_id b)
  && (shower_event_id a =? shower_event_id b)
  && Qeq_bool (true_alt a) (true_alt b)
  && Qeq_bool (true_az a) (true_az b).

(** Equal index: GROUP_INDEX and telescope id. *)
Definition same_label (a b : shower_event) : bool :=
  same_shower a b && (shower_tel_id a =? shower_tel_id b).

(** [groupby(GROUP_INDEX).size()] read at the group of [r]. *)
Definition group_size (data : list shower_event) (r : shower_event) : Z :=
  Z.of_nat (List.length (filter (same_shower r) data)).

(** [len(groupby(GROUP_INDEX).size())]: the number of groups. *)
Fixpoint n_groups (data : list shower_event) : Z :=
  match data with
  | [] => 0
  | r :: data' =>
      if existsb (same_shower r) data' then n_groups data'
      else 1 + n_groups data'
  end.

(** Lines 138-143: the rows of the groups made of [len(tel_ids)] rows
    with telescope ids among [tel_ids]. *)
Definition combo_events (tel_ids : list Z) (stereo : list stereo_event)
    : list stereo_event :=
  let n := Z.of_nat (List.length tel_ids) in
  let df_events :=
    filter (fun s => isin (shower_tel_id (shower s)) tel_ids
                     && (multiplicity s =? n)) stereo in
  let resized :=
    map (fun s => {| shower := shower s;
                     multiplicity := group_size (map shower df_events) (shower s);
                     combo_type := combo_type s |}) df_events in
  filter (fun s => multiplicity s =? n) resized.

(** Line 152: [event_data_stereo.loc[df_events.index, "combo_type"] = k]. *)
Definition assign_combo (k : Z) (df_events stereo : list stereo_event)
    : list stereo_event :=
  map (fun s =>
         if existsb (fun e => same_label (shower e) (shower s)) df_events
         then {| shower := shower s; multiplicity := multiplicity s;
                 combo_type := Some k |}
         else s)
      stereo.

(** Lines 136-152.  The percentage 100 * n_events / n_events_total is a
    division of Python integers. *)
Fixpoint combo_loop (combos : list (list Z)) (k : Z) (n_events_total : Z)
    (stereo : list stereo_event) : result (list stereo_event) :=
  match combos with
  | [] => Ok stereo
  | tel_ids :: combos' =>
      let df_events := combo_events tel_ids stereo in
      if n_events_total =? 0 then Raise ZeroDivisionError
      else combo_loop combos' (k + 1) n_events_total
                      (assign_combo k df_events stereo)
  end.

(** The rows that pass the quality cuts. *)
Definition after_cuts (event_data : list shower_event)
    (quality_cuts : option (shower_event -> bool)) : list shower_event :=
  match quality_cuts with
  | Some cut => filter cut event_data
  | None => event_data
  end.

Definition with_multiplicity (data : list shower_event) : list stereo_event :=
  map (fun r => {| shower := r; multiplicity := group_size data r;
                   combo_type := None |}) data.

Definition get_stereo_events (event_data : list shower_event)
    (quality_cuts : option (shower_event -> bool))
    : result (list stereo_event) :=
  let data := after_cuts event_data quality_cuts in
  let event_data_stereo :=
    filter (fun s => isin (multiplicity s) [2; 3]) (with_multiplicity data) in
  let n_events_total := n_groups (map shower event_data_stereo) in
  combo_loop (map snd TEL_COMBINATIONS) 0 n_events_total event_data_stereo.

(** *** Groups *)

Lemma Qeq_bool_same x : Qeq_bool x x = true.
Proof. apply Qeq_bool_iff. reflexivity. Qed.

Lemma same_shower_iff a b :
  same_shower a b = true
  <-> shower_obs_id a = shower_obs_id b
      /\ shower_event_id a = shower_event_id b
      /\ (true_alt a == true_alt b)%Q /\ (true_az a == true_az b)%Q.
Proof.
  unfold same_shower.
  rewrite !andb_true_iff, !Z.eqb_eq, !Qeq_bool_iff. tauto.
Qed.

Lemma same_shower_refl a : same_shower a a = true.
Proof. apply same_shower_iff. repeat split; reflexivity. Qed.

Lemma same_shower_trans a b c :
  same_shower a b = true -> same_shower b c = true -> same_shower a c = true.
Proof.
  rewrite !same_shower_iff.
  intros (H1 & H2 & H3 & H4) (G1 & G2 & G3 & G4).
  repeat split; try congruence;
    [now rewrite H3 | now rewrite H4].
Qed.

Lemma same_shower_sym a b : same_shower a b = true -> same_shower b a = true.
Proof.
  rewrite !same_shower_iff. intros (H1 & H2 & H3 & H4).
  repeat split; try congruence; symmetry; assumption.
Qed.

Lemma same_shower_ext a b :
  same_shower a b = true -> forall c, same_shower a c = same_shower b c.
Proof.
  intros H c. apply eq_true_iff_eq. split; intros G.
  - eapply same_shower_trans; [apply same_shower_sym; exact H | exact G].
  - eapply same_shower_trans; eassumption.
Qed.

Lemma group_size_same data a b :
  same_shower a b = true -> group_size data a = group_size data b.
Proof.
  intros H. unfold group_size.
  rewrite (filter_ext _ _ (same_shower_ext a b H)). reflexivity.
Qed.

Lemma n_groups_pos data : data <> [] -> 0 < n_groups data.
Proof.
  induction data as [|r data IH]; [congruence|]. intros _.
  cbn [n_groups]. destruct (existsb (same_shower r) data) eqn:E.
  - apply IH. intros ->. discriminate.
  - destruct data as [|r' data']; [cbn; lia|].
    assert (0 < n_groups (r' :: data')) by (apply IH; discriminate). lia.
Qed.

(** Whole groups pass a test that depends on the group only. *)
Lemma group_size_filter data (p : shower_event -> bool) r :
  (forall a b, same_shower a b = true -> p a = p b) ->
  p r = true ->
  group_size (filter p data) r = group_size data r.
Proof.
  intros Hp Hr. unfold group_size. f_equal. f_equal.
  induction data as [|x data IH]; [reflexivity|].
  cbn [filter]. destruct (same_shower r x) eqn:S.
  - rewrite <- (Hp r x S), Hr. cbn [filter]. rewrite S. now rewrite IH.
  - destruct (p x); cbn [filter]; rewrite ?S; exact IH.
Qed.

(** *** The loop over the combinations *)

Fixpoint assign_all (combos : list (list Z)) (k : Z)
    (stereo : list stereo_event) : list stereo_event :=
  match combos with
  | [] => stereo
  | tel_ids :: combos' =>
      assign_all combos' (k + 1)
                 (assign_combo k (combo_events tel_ids stereo) stereo)
  end.

Lemma combo_loop_zero combos k stereo :
  combos <> [] -> combo_loop combos k 0 stereo = Raise ZeroDivisionError.
Proof. destruct combos; [congruence | reflexivity]. Qed.

Lemma combo_loop_nonzero combos n : forall k stereo,
  n <> 0 -> combo_loop combos k n stereo = Ok (assign_all combos k stereo).
Proof.
  induction combos as [|t combos IH]; intros k stereo Hn; [reflexivity|].
  cbn [combo_loop assign_all].
  destruct (Z.eqb_spec n 0); [contradiction|]. apply IH. exact Hn.
Qed.

Lemma assign_combo_shower k df stereo :
  map shower (assign_combo k df stereo) = map shower stereo.
Proof.
  unfold assign_combo. rewrite map_map. apply map_ext. intros s.
  destruct (existsb _ df); reflexivity.
Qed.

Lemma assign_combo_multiplicity k df stereo :
  map multiplicity (assign_combo k df stereo) = map multiplicity stereo.
Proof.
  unfold assign_combo. rewrite map_map. apply map_ext. intros s.
  destruct (existsb _ df); reflexivity.
Qed.

Lemma assign_all_shower combos : forall k stereo,
  map shower (assign_all combos k stereo) = map shower stereo
  /\ map multiplicity (assign_all combos k stereo) = map multiplicity stereo.
Proof.
  induction combos as [|t combos IH]; intros k stereo; [split; reflexivity|].
  cbn [assign_all]. destruct (IH (k + 1) (assign_combo k (combo_events t stereo) stereo))
    as [H1 H2].
  rewrite H1, H2, assign_combo_shower, assign_combo_multiplicity.
  split; reflexivity.
Qed.

Lemma with_multiplicity_shower data :
  map shower (filter (fun s => isin (multiplicity s) [2; 3])
                     (with_multiplicity data))
  = filter (fun r => isin (group_size data r) [2; 3]) data.
Proof.
  unfold with_multiplicity.
  rewrite (filter_map_swap _ (fun s => isin (multiplicity s) [2; 3])).
  rewrite map_map. cbn [shower multiplicity]. apply map_id.
Qed.

Lemma isin_2_3 m : isin m [2; 3] = true <-> m = 2 \/ m = 3.
Proof. rewrite isin_In. cbn. intuition. Qed.

(** X17.  [get_stereo_events] keeps, in their order, the rows that pass
    the quality cuts and belong to a group of two or three such rows, and
    writes that number as their multiplicity; groups are kept or dropped
    as a whole.  When no row is kept, in particular for an empty table,
    the function does not return an empty table: the percentage of the
    first combination divides by zero. *)
Theorem stereo_events_selection (event_data : list shower_event)
    (quality_cuts : option (shower_event -> bool)) :
  let data := after_cuts event_data quality_cuts in
  let kept := filter (fun r => isin (group_size data r) [2; 3]) data in
  (kept = [] ->
   get_stereo_events event_data quality_cuts = Raise ZeroDivisionError)
  /\ (kept <> [] ->
      exists out,
        get_stereo_events event_data quality_cuts = Ok out
        /\ map shower out = kept
        /\ forall s, In s out ->
             multiplicity s = group_size data (shower s)
             /\ (multiplicity s = 2 \/ multiplicity s = 3)
             /\ forall r, In r data -> same_shower (shower s) r = true ->
                          In r kept).
Proof.
  cbv zeta. unfold get_stereo_events.
  set (data := after_cuts event_data quality_cuts).
  set (stereo := filter (fun s => isin (multiplicity s) [2; 3])
                        (with_multiplicity data)).
  pose proof (with_multiplicity_shower data) as Hs. fold stereo in Hs.
  rewrite Hs. set (kept := filter (fun r => isin (group_size data r) [2; 3]) data) in *.
  split.
  - intros E. rewrite E. cbn [n_groups]. apply combo_loop_zero. discriminate.
  - intros Hne.
    rewrite combo_loop_nonzero
      by (pose proof (n_groups_pos kept Hne); lia).
    eexists. split; [reflexivity|].
    destruct (assign_all_shower (map snd TEL_COMBINATIONS) 0 stereo) as [A1 A2].
    split; [now rewrite A1|].
    intros s Hin.
    assert (Hpair : In (shower s, multiplicity s)
                       (combine (map shower stereo) (map multiplicity stereo))).
    { rewrite <- A1, <- A2.
      clear - Hin. induction (assign_all _ _ _) as [|x l IH]; [contradiction|].
      destruct Hin as [-> | Hin]; [now left | right; auto]. }
    assert (Horig : exists s0, In s0 stereo /\ shower s0 = shower s
                               /\ multiplicity s0 = multiplicity s).
    { clear - Hpair. induction stereo as [|x l IH]; [contradiction|].
      destruct Hpair as [E | Hp].
      - exists x. injection E as E1 E2. split; [now left | auto].
      - destruct (IH Hp) as (s0 & H0 & H1). exists s0. split; [now right | auto]. }
    destruct Horig as (s0 & H0 & E1 & E2).
    unfold stereo in H0. apply filter_In in H0 as [H0 Hm].
    unfold with_multiplicity in H0. apply in_map_iff in H0 as (r0 & <- & Hr0).
    cbn [shower multiplicity] in *. subst r0.
    rewrite <- E2. split; [reflexivity|].
    split; [apply isin_2_3; exact Hm|].
    intros r Hr Hsame. unfold kept. apply filter_In. split; [exact Hr|].
    now rewrite <- (group_size_same data _ _ Hsame).
Qed.

(** *** Combination types *)

Lemma filter_filter_length_le {A} (p q : A -> bool) (l : list A) :
  (List.length (filter q (filter p l)) <= List.length (filter q l))%nat.
Proof.
  induction l as [|x l IH]; [apply Nat.le_refl|].
  cbn [filter]. destruct (p x); cbn [filter]; destruct (q x); cbn [List.length]; lia.
Qed.

Lemma filter_filter_same {A} (p q : A -> bool) (l : list A) :
  (forall x, In x l -> q x = true -> p x = true) ->
  filter q (filter p l) = filter q l.
Proof.
  induction l as [|x l IH]; intros H; [reflexivity|].
  assert (IH' : filter q (filter p l) = filter q l)
    by (apply IH; intros y Hy; apply H; now right).
  cbn [filter]. destruct (q x) eqn:Q.
  - rewrite (H x (or_introl eq_refl) Q). cbn [filter]. now rewrite Q, IH'.
  - destruct (p x); cbn [filter]; rewrite ?Q; exact IH'.
Qed.

Lemma filter_filter_length_eq {A} (p q : A -> bool) (l : list A) :
  List.length (filter q (filter p l)) = List.length (filter q l) ->
  forall x, In x l -> q x = true -> p x = true.
Proof.
  induction l as [|x l IH]; intros E y Hy Qy; [contradiction|].
  pose proof (filter_filter_length_le p q l) as Hle.
  cbn [filter] in E. destruct (p x) eqn:P.
  - cbn [filter] in E. destruct Hy as [<- | Hy]; [exact P|].
    apply IH; [|exact Hy | exact Qy].
    destruct (q x); cbn [List.length] in E; lia.
  - destruct (q x) eqn:Q.
    + cbn [List.length] in E. lia.
    + destruct Hy as [<- | Hy]; [congruence|]. apply IH; assumption.
Qed.

Lemma existsb_map_comp {A B} (f : A -> B) (p : B -> bool) (l : list A) :
  existsb p (map f l) = existsb (fun x => p (f x)) l.
Proof. induction l as [|x l IH]; cbn; [reflexivity | now rewrite IH]. Qed.

(** The columns that the selection of a combination reads. *)
Definition keys (stereo : list stereo_event) : list (shower_event * Z) :=
  map (fun s => (shower s, multiplicity s)) stereo.

Definition combo_df (tel_ids : list Z) (ks : list (shower_event * Z))
    : list (shower_event * Z) :=
  filter (fun x => isin (shower_tel_id (fst x)) tel_ids
                   && (snd x =? Z.of_nat (List.length tel_ids))) ks.

Definition combo_showers (tel_ids : list Z) (ks : list (shower_event * Z))
    : list shower_event :=
  map fst
      (filter (fun x => group_size (map fst (combo_df tel_ids ks)) (fst x)
                        =? Z.of_nat (List.length tel_ids))
              (combo_df tel_ids ks)).

Definition labelled (tel_ids : list Z) (ks : list (shower_event * Z))
    (r : shower_event) : bool :=
  existsb (fun e => same_label e r) (combo_showers tel_ids ks).

Lemma combo_events_showers tel_ids stereo :
  map shower (combo_events tel_ids stereo) = combo_showers tel_ids (keys stereo).
Proof.
  unfold combo_events, combo_showers, combo_df, keys.
  set (n := Z.of_nat (List.length tel_ids)).
  rewrite (filter_map_swap (fun s => (shower s, multiplicity s))
             (fun x => isin (shower_tel_id (fst x)) tel_ids && (snd x =? n))).
  cbn [fst snd].
  set (df := filter (fun s => isin (shower_tel_id (shower s)) tel_ids
                              && (multiplicity s =? n)) stereo).
  rewrite (map_map (fun s => (shower s, multiplicity s)) fst). cbn [fst].
  rewrite (filter_map_swap (fun s => (shower s, multiplicity s))
             (fun x => group_size (map shower df) (fst x) =? n)).
  cbn [fst]. rewrite map_map. cbn [fst].
  rewrite (filter_map_swap _ (fun s => multiplicity s =? n)).
  cbn [multiplicity]. rewrite map_map. cbn [shower]. reflexivity.
Qed.

Lemma assign_combo_labelled k tel_ids stereo :
  assign_combo k (combo_events tel_ids stereo) stereo
  = map (fun s =>
           if labelled tel_ids (keys stereo) (shower s)
           then {| shower := shower s; multiplicity := multiplicity s;
                   combo_type := Some k |}
           else s)
        stereo.
Proof.
  unfold assign_combo, labelled. apply map_ext. intros s.
  rewrite <- combo_events_showers, existsb_map_comp. reflexivity.
Qed.

Lemma assign_combo_keys k df stereo : keys (assign_combo k df stereo) = keys stereo.
Proof.
  unfold keys, assign_combo. rewrite map_map. apply map_ext. intros s.
  destruct (existsb _ df); reflexivity.
Qed.

(** The combination type left by the loop: the last combination that
    fits, if any. *)
Fixpoint combo_of (combos : list (list Z)) (k : Z) (fits : list Z -> bool)
    (c : option Z) : option Z :=
  match combos with
  | [] => c
  | tel_ids :: combos' =>
      combo_of combos' (k + 1) fits (if fits tel_ids then Some k else c)
  end.

Lemma assign_all_spec combos : forall k stereo,
  assign_all combos k stereo
  = map (fun s =>
           {| shower := shower s; multiplicity := multiplicity s;
              combo_type :=
                combo_of combos k
                         (fun t => labelled t (keys stereo) (shower s))
                         (combo_type s) |})
        stereo.
Proof.
  induction combos as [|t combos IH]; intros k stereo.
  - cbn [assign_all combo_of]. rewrite <- (map_id stereo) at 1.
    apply map_ext. intros []. reflexivity.
  - cbn [assign_all combo_of]. rewrite IH, assign_combo_keys.
    rewrite assign_combo_labelled, map_map. apply map_ext. intros s.
    destruct (labelled t (keys stereo) (shower s)); reflexivity.
Qed.

Lemma combo_of_assigned combos fits : forall k j,
  combo_of combos k fits (Some j) <> None.
Proof.
  induction combos as [|t combos IH]; intros k j; cbn [combo_of];
    [discriminate|].
  destruct (fits t); apply IH.
Qed.

Lemma combo_of_none combos fits : forall k,
  combo_of combos k fits None = None <-> forall t, In t combos -> fits t = false.
Proof.
  induction combos as [|t combos IH]; intros k; cbn [combo_of].
  - split; [intros _ t [] | reflexivity].
  - destruct (fits t) eqn:F.
    + split.
      * intros H. now apply combo_of_assigned in H.
      * intros H. specialize (H t (or_introl eq_refl)). congruence.
    + rewrite IH. split.
      * intros H t' [<- | Ht']; auto.
      * intros H t' Ht'. apply H. now right.
Qed.

Lemma combo_of_some combos fits : forall k c j,
  combo_of combos k fits c = Some j
  <-> (exists i t, nth_error combos i = Some t /\ j = k + Z.of_nat i
                   /\ fits t = true
                   /\ forall i' t', (i < i')%nat ->
                                    nth_error combos i' = Some t' ->
                                    fits t' = false)
      \/ (c = Some j /\ forall t, In t combos -> fits t = false).
Proof.
  induction combos as [|t combos IH]; intros k c j; cbn [combo_of].
  - split.
    + intros ->. right. split; [reflexivity | intros ? []].
    + intros [(i & t & H & _) | [-> _]]; [destruct i; discriminate | reflexivity].
  - rewrite IH. split.
    + intros [(i & t0 & Hi & -> & Hf & Hlast) | [Hc Hnone]].
      * left. exists (S i), t0. split; [exact Hi|]. split; [lia|].
        split; [exact Hf|].
        intros [|i'] t' Hlt Hi'; [lia|]. apply (Hlast i' t'); [lia | exact Hi'].
      * destruct (fits t) eqn:F.
        -- injection Hc as <-. left. exists 0%nat, t.
           split; [reflexivity|]. split; [lia|]. split; [exact F|].
           intros [|i'] t' Hlt Hi'; [lia|].
           apply Hnone. eapply nth_error_In, Hi'.
        -- right. split; [exact Hc|]. intros t' [<- | Ht']; auto.
    + intros [(i & t0 & Hi & -> & Hf & Hlast) | [-> Hnone]].
      * destruct i as [|i].
        -- cbn in Hi. injection Hi as <-. right. rewrite Hf.
           split; [f_equal; lia|].
           intros t' Ht'. apply In_nth_error in Ht' as (i' & Hi').
           apply (Hlast (S i') t'); [lia | exact Hi'].
        -- left. exists i, t0. split; [exact Hi|]. split; [lia|].
           split; [exact Hf|].
           intros i' t' Hlt Hi'. apply (Hlast (S i') t'); [lia | exact Hi'].
      * right. rewrite (Hnone t (or_introl eq_refl)).
        split; [reflexivity|]. intros t' Ht'. apply Hnone. now right.
Qed.

Lemma stereo_keys data :
  keys (filter (fun s => isin (multiplicity s) [2; 3]) (with_multiplicity data))
  = map (fun r => (r, group_size data r))
        (filter (fun r => isin (group_size data r) [2; 3]) data).
Proof.
  unfold keys, with_multiplicity.
  rewrite (filter_map_swap _ (fun s => isin (multiplicity s) [2; 3])).
  rewrite map_map. cbn [shower multiplicity]. reflexivity.
Qed.

Lemma combo_showers_stereo data tel_ids :
  let n := Z.of_nat (List.length tel_ids) in
  let kept := filter (fun r => isin (group_size data r) [2; 3]) data in
  let df := filter (fun r => isin (shower_tel_id r) tel_ids
                             && (group_size data r =? n)) kept in
  combo_showers tel_ids (map (fun r => (r, group_size data r)) kept)
  = filter (fun r => group_size df r =? n) df.
Proof.
  cbv zeta. unfold combo_showers, combo_df.
  rewrite (filter_map_swap (fun r => (r, group_size data r))). cbn [fst snd].
  rewrite (map_map (fun r => (r, group_size data r)) fst). cbn [fst].
  rewrite map_id.
  rewrite (filter_map_swap (fun r => (r, group_size data r))). cbn [fst].
  rewrite map_map. cbn [fst]. apply map_id.
Qed.

(** A combination is assigned to a kept row exactly when its group has
    as many rows as the combination has telescopes and every row of the
    group was recorded by a telescope of the combination. *)
Lemma stereo_labelled data tel_ids r0 :
  let kept := filter (fun r => isin (group_size data r) [2; 3]) data in
  let stereo :=
    filter (fun s => isin (multiplicity s) [2; 3]) (with_multiplicity data) in
  In r0 kept ->
  labelled tel_ids (keys stereo) r0 = true
  <-> group_size data r0 = Z.of_nat (List.length tel_ids)
      /\ forall r, In r data -> same_shower r0 r = true ->
                   In (shower_tel_id r) tel_ids.
Proof.
  cbv zeta. intros Hr0. unfold labelled.
  rewrite stereo_keys, combo_showers_stereo. cbv zeta.
  set (n := Z.of_nat (List.length tel_ids)).
  set (P := fun r => isin (group_size data r) [2; 3]) in *.
  set (D := fun r => isin (shower_tel_id r) tel_ids && (group_size data r =? n)).
  set (kept := filter P data) in *.
  set (df := filter D kept).
  assert (HP : forall a b, same_shower a b = true -> P a = P b).
  { intros a b H. unfold P. now rewrite (group_size_same data a b H). }
  pose proof Hr0 as Hr0'. apply filter_In in Hr0' as [Hdata HP0].
  rewrite existsb_exists. split.
  - intros (e & He & Hlab).
    apply filter_In in He as [Hedf Hsize]. apply Z.eqb_eq in Hsize.
    pose proof Hedf as Hedf'. apply filter_In in Hedf' as [Hekept HDe].
    apply andb_true_iff in HDe as [_ Hen]. apply Z.eqb_eq in Hen.
    apply andb_true_iff in Hlab as [Hsame _].
    split.
    + rewrite <- (group_size_same data e r0 Hsame). exact Hen.
    + intros r Hr Hsr.
      assert (Her : same_shower e r = true)
        by (eapply same_shower_trans; eassumption).
      assert (Hlen : List.length (filter (same_shower e) df)
                     = List.length (filter (same_shower e) data)).
      { unfold group_size in Hsize, Hen. lia. }
      pose proof (filter_filter_length_le D (same_shower e) kept) as L1.
      pose proof (filter_filter_length_le P (same_shower e) data) as L2.
      fold kept in L2. fold df in L1.
      assert (HPr : P r = true).
      { apply (filter_filter_length_eq P (same_shower e) data);
          [fold kept; lia | exact Hr | exact Her]. }
      assert (HDr : D r = true).
      { apply (filter_filter_length_eq D (same_shower e) kept);
          [fold df; lia | | exact Her].
        apply filter_In. split; assumption. }
      apply andb_true_iff in HDr as [Hin _]. apply isin_In. exact Hin.
  - intros [Hn Htel]. exists r0.
    assert (HD : forall r, In r data -> same_shower r0 r = true -> D r = true).
    { intros r Hr Hsr. unfold D. apply andb_true_iff. split.
      - apply isin_In. apply Htel; assumption.
      - apply Z.eqb_eq. rewrite <- (group_size_same data r0 r Hsr). exact Hn. }
    split.
    + apply filter_In. split.
      * apply filter_In. split; [exact Hr0|].
        apply HD; [exact Hdata | apply same_shower_refl].
      * apply Z.eqb_eq. rewrite <- Hn. unfold group_size. f_equal. f_equal.
        unfold df, kept.
        rewrite (filter_filter_same D (same_shower r0) (filter P data)).
        -- apply filter_filter_same. intros x Hx Hsx.
           rewrite <- (HP r0 x Hsx). exact HP0.
        -- intros x Hx Hsx. apply filter_In in Hx as [Hx _]. now apply HD.
    + unfold same_label. rewrite same_shower_refl, Z.eqb_refl. reflexivity.
Qed.

(** The rows of the output of [get_stereo_events]. *)
Lemma stereo_events_rows event_data quality_cuts out s :
  get_stereo_events event_data quality_cuts = Ok out ->
  In s out ->
  let data := after_cuts event_data quality_cuts in
  let stereo :=
    filter (fun s => isin (multiplicity s) [2; 3]) (with_multiplicity data) in
  In (shower s) data
  /\ In (shower s) (filter (fun r => isin (group_size data r) [2; 3]) data)
  /\ multiplicity s = group_size data (shower s)
  /\ combo_type s
     = combo_of (map snd TEL_COMBINATIONS) 0
                (fun t => labelled t (keys stereo) (shower s)) None.
Proof.
  cbv zeta. unfold get_stereo_events.
  set (data := after_cuts event_data quality_cuts).
  set (stereo := filter (fun s => isin (multiplicity s) [2; 3])
                        (with_multiplicity data)).
  intros Hrun Hin.
  destruct (Z.eq_dec (n_groups (map shower stereo)) 0) as [E | E].
  - rewrite E, combo_loop_zero in Hrun by discriminate. discriminate.
  - rewrite combo_loop_nonzero in Hrun by exact E.
    assert (Hout : out = assign_all (map snd TEL_COMBINATIONS) 0 stereo)
      by congruence.
    rewrite Hout, assign_all_spec in Hin.
    apply in_map_iff in Hin as (s0 & <- & H0). cbn [shower multiplicity combo_type].
    unfold stereo in H0. apply filter_In in H0 as [H0 Hm].
    unfold with_multiplicity in H0. apply in_map_iff in H0 as (r & <- & Hr).
    cbn [shower multiplicity combo_type] in *.
    split; [exact Hr|]. split; [|split; reflexivity].
    apply filter_In. split; assumption.
Qed.

(** The property of the group of a row that makes a combination fit. *)
Definition fits (data : list shower_event) (s : stereo_event)
    (tel_ids : list Z) : Prop :=
  multiplicity s = Z.of_nat (List.length tel_ids)
  /\ forall r, In r data -> same_shower (shower s) r = true ->
               In (shower_tel_id r) tel_ids.

Lemma stereo_events_fits event_data quality_cuts out s :
  get_stereo_events event_data quality_cuts = Ok out ->
  In s out ->
  let data := after_cuts event_data quality_cuts in
  let stereo :=
    filter (fun s => isin (multiplicity s) [2; 3]) (with_multiplicity data) in
  forall t, labelled t (keys stereo) (shower s) = true <-> fits data s t.
Proof.
  intros Hrun Hin. cbv zeta. intros t.
  destruct (stereo_events_rows _ _ _ _ Hrun Hin) as (_ & Hkept & Hm & _).
  unfold fits. rewrite Hm. apply stereo_labelled. exact Hkept.
Qed.

(** The combination type is that of the last entry that fits. *)
Lemma combo_type_last_fit (event_data : list shower_event)
    (quality_cuts : option (shower_event -> bool))
    (out : list stereo_event) (s : stereo_event) :
  get_stereo_events event_data quality_cuts = Ok out ->
  In s out ->
  let data := after_cuts event_data quality_cuts in
  let combos := map snd TEL_COMBINATIONS in
  (combo_type s = None <-> forall t, In t combos -> ~ fits data s t)
  /\ forall k,
       combo_type s = Some k
       <-> exists i t,
             k = Z.of_nat i /\ nth_error combos i = Some t /\ fits data s t
             /\ forall i' t', (i < i')%nat -> nth_error combos i' = Some t' ->
                              ~ fits data s t'.
Proof.
  intros Hrun Hin. cbv zeta.
  destruct (stereo_events_rows _ _ _ _ Hrun Hin) as (_ & _ & _ & Hc).
  pose proof (stereo_events_fits _ _ _ _ Hrun Hin) as Hfit. cbv zeta in Hfit.
  rewrite Hc. split.
  - rewrite combo_of_none. split.
    + intros H t Ht F. apply Hfit in F. rewrite (H t Ht) in F. discriminate.
    + intros H t Ht. destruct (labelled t _ _) eqn:L; [|reflexivity].
      apply Hfit in L. elim (H t Ht L).
  - intros k. rewrite combo_of_some. split.
    + intros [(i & t & Hi & -> & Hf & Hlast) | [Hno _]]; [|discriminate].
      exists i, t. split; [lia|]. split; [exact Hi|].
      split; [now apply Hfit|].
      intros i' t' Hlt Hi' F. apply Hfit in F.
      rewrite (Hlast i' t' Hlt Hi') in F. discriminate.
    + intros (i & t & -> & Hi & Hf & Hlast). left. exists i, t.
      split; [exact Hi|]. split; [lia|]. split; [now apply Hfit|].
      intros i' t' Hlt Hi'. destruct (labelled t' _ _) eqn:L; [|reflexivity].
      apply Hfit in L. elim (Hlast i' t' Hlt Hi' L).
Qed.

(** X18.  In the output of [get_stereo_events] a row has no combination
    type exactly when no entry of TEL_COMBINATIONS fits its group, and
    otherwise has the position of the last entry that fits: an entry
    fits when the group has as many rows after the cuts as the entry has
    telescopes and all of them come from telescopes of the entry. *)
Theorem stereo_events_combo_type (event_data : list shower_event)
    (quality_cuts : option (shower_event -> bool))
    (out : list stereo_event) (s : stereo_event) :
  get_stereo_events event_data quality_cuts = Ok out ->
  In s out ->
  let data := after_cuts event_data quality_cuts in
  let combos := map snd TEL_COMBINATIONS in
  (combo_type s = None <-> forall t, In t combos -> ~ fits data s t)
  /\ forall k,
       combo_type s = Some k
       <-> exists i t,
             k = Z.of_nat i /\ nth_error combos i = Some t /\ fits data s t
             /\ forall i' t', (i < i')%nat -> nth_error combos i' = Some t' ->
                              ~ fits data s t'.
Proof. intros Hrun Hin. exact (combo_type_last_fit _ _ _ _ Hrun Hin). Qed.

Lemma stereo_events_combo_type_witness :
  let r1 :=
    {| shower_obs_id := 5093; shower_event_id := 1; true_alt := 1 # 2;
       true_az := 3 # 4; shower_tel_id := 1; shower_params := [] |} in
  let r2 :=
    {| shower_obs_id := 5093; shower_event_id := 1; true_alt := 1 # 2;
       true_az := 3 # 4; shower_tel_id := 3; shower_params := [] |} in
  let r3 :=
    {| shower_obs_id := 5093; shower_event_id := 2; true_alt := 1 # 2;
       true_az := 3 # 4; shower_tel_id := 2; shower_params := [] |} in
  let s1 := {| shower := r1; multiplicity := 2; combo_type := Some 2 |} in
  let s2 := {| shower := r2; multiplicity := 2; combo_type := Some 2 |} in
  get_stereo_events [r1; r2; r3] None = Ok [s1; s2]
  /\ exists i t,
       2 = Z.of_nat i /\ nth_error (map snd TEL_COMBINATIONS) i = Some t
       /\ fits [r1; r2; r3] s2 t.
Proof.
  intros r1 r2 r3 s1 s2.
  assert (Hrun : get_stereo_events [r1; r2; r3] None = Ok [s1; s2])
    by (vm_compute; reflexivity).
  split; [exact Hrun|].
  destruct (stereo_events_combo_type [r1; r2; r3] None [s1; s2] s2 Hrun
              (or_intror (or_introl eq_refl))) as [_ H].
  destruct (proj1 (H 2) eq_refl) as (i & t & Hi & Ht & Hf & _).
  exists i, t. split; [exact Hi|]. split; [exact Ht | exact Hf].
Defined.

(** *** One row per telescope *)

(** The telescope ids of the rows of the group of [s]. *)
Definition group_tel_ids (data : list shower_event) (s : stereo_event)
    : list Z :=
  map shower_tel_id (filter (same_shower (shower s)) data).

Lemma fits_group_tel_ids data s t :
  multiplicity s = group_size data (shower s) ->
  fits data s t
  <-> List.length (group_tel_ids data s) = List.length t
      /\ incl (group_tel_ids data s) t.
Proof.
  intros Hm. unfold fits, group_tel_ids, incl. rewrite Hm. unfold group_size.
  rewrite length_map. split.
  - intros [Hlen Hin]. split; [lia|].
    intros tel Htel. apply in_map_iff in Htel as (r & <- & Hr).
    apply filter_In in Hr as [Hr Hs]. now apply Hin.
  - intros [Hlen Hin]. split; [lia|].
    intros r Hr Hs. apply Hin. apply in_map_iff. exists r.
    split; [reflexivity|]. apply filter_In. split; assumption.
Qed.

Lemma TEL_COMBINATIONS_in t :
  In t (map snd TEL_COMBINATIONS)
  -> NoDup t /\ incl t [1; 2; 3].
Proof.
  assert (N : forall a b : Z, a <> b -> NoDup [a; b]).
  { intros a b Hab. constructor; [intros [E | []]; congruence|].
    constructor; [intros [] | constructor]. }
  cbn. intros [<- | [<- | [<- | [<- | []]]]].
  - split; [apply N; lia | intros x [<- | [<- | []]]; cbn; auto].
  - split; [apply N; lia | intros x [<- | [<- | []]]; cbn; auto].
  - split; [apply N; lia | intros x [<- | [<- | []]]; cbn; auto].
  - split; [|apply incl_refl].
    constructor; [intros [E | [E | []]]; lia | apply N; lia].
Qed.

Lemma TEL_COMBINATIONS_distinct i i' t t' :
  nth_error (map snd TEL_COMBINATIONS) i = Some t ->
  nth_error (map snd TEL_COMBINATIONS) i' = Some t' ->
  (forall tel, In tel t <-> In tel t') ->
  i = i'.
Proof.
  assert (C : forall j u, nth_error (map snd TEL_COMBINATIONS) j = Some u ->
                (j = 0%nat /\ u = [2; 3]) \/ (j = 1%nat /\ u = [1; 2])
                \/ (j = 2%nat /\ u = [1; 3]) \/ (j = 3%nat /\ u = [1; 2; 3])).
  { intros [|[|[|[|j]]]] u Hj; cbn in Hj;
      [injection Hj as <-; tauto .. | destruct j; discriminate]. }
  assert (In_2 : forall x a b : Z, In x [a; b] <-> x = a \/ x = b)
    by (intros; cbn; intuition congruence).
  assert (In_3 : forall x a b c : Z, In x [a; b; c] <-> x = a \/ x = b \/ x = c)
    by (intros; cbn; intuition congruence).
  intros Hi Hi' H.
  pose proof (H 1) as H1. pose proof (H 2) as H2. pose proof (H 3) as H3.
  clear H.
  destruct (C i t Hi) as [[-> ->] | [[-> ->] | [[-> ->] | [-> ->]]]];
    destruct (C i' t' Hi') as [[-> ->] | [[-> ->] | [[-> ->] | [-> ->]]]];
    try reflexivity; exfalso;
    rewrite ?In_2, ?In_3 in H1, H2, H3; lia.
Qed.

(** With one row per telescope, fitting a combination is having its
    telescopes. *)
Lemma fits_same_telescopes data s t :
  multiplicity s = group_size data (shower s) ->
  NoDup (group_tel_ids data s) ->
  In t (map snd TEL_COMBINATIONS) ->
  fits data s t <-> forall tel, In tel t <-> In tel (group_tel_ids data s).
Proof.
  intros Hm Hnd Ht. rewrite (fits_group_tel_ids data s t Hm).
  destruct (TEL_COMBINATIONS_in t Ht) as [Hndt _].
  split.
  - intros [Hlen Hincl] tel. split; [|apply Hincl].
    apply (NoDup_length_incl Hnd); [lia | exact Hincl].
  - intros H.
    assert (I1 : incl (group_tel_ids data s) t) by (intros x Hx; now apply H).
    assert (I2 : incl t (group_tel_ids data s)) by (intros x Hx; now apply H).
    split; [|exact I1].
    pose proof (NoDup_incl_length Hnd I1). pose proof (NoDup_incl_length Hndt I2).
    lia.
Qed.

(** X19.  When the rows of a stereo event after the cuts come from
    different telescopes, its combination type is k exactly when its
    telescopes are those of entry k of TEL_COMBINATIONS, and it is left
    without a combination type exactly when one of its rows has a
    telescope id other than 1, 2 and 3. *)
Theorem stereo_events_same_telescopes (event_data : list shower_event)
    (quality_cuts : option (shower_event -> bool))
    (out : list stereo_event) (s : stereo_event) :
  get_stereo_events event_data quality_cuts = Ok out ->
  In s out ->
  let data := after_cuts event_data quality_cuts in
  NoDup (group_tel_ids data s) ->
  (forall i t,
     nth_error (map snd TEL_COMBINATIONS) i = Some t ->
     combo_type s = Some (Z.of_nat i)
     <-> forall tel, In tel t <-> In tel (group_tel_ids data s))
  /\ (combo_type s = None
      <-> exists tel, In tel (group_tel_ids data s) /\ ~ In tel [1; 2; 3]).
Proof.
  intros Hrun Hin data Hnd.
  destruct (stereo_events_rows _ _ _ _ Hrun Hin) as (_ & Hkept & Hm & _).
  fold data in Hkept, Hm.
  destruct (combo_type_last_fit _ _ _ _ Hrun Hin) as [Hnone Hsome].
  fold data in Hnone, Hsome.
  assert (Hsize : List.length (group_tel_ids data s) = 2%nat
                  \/ List.length (group_tel_ids data s) = 3%nat).
  { apply filter_In in Hkept as [_ Hk]. apply isin_2_3 in Hk.
    unfold group_tel_ids. rewrite length_map. unfold group_size in Hk. lia. }
  split.
  - intros i t Hi. pose proof (nth_error_In _ _ Hi) as Ht.
    rewrite <- (fits_same_telescopes data s t Hm Hnd Ht), Hsome. split.
    + intros (i0 & t0 & Hk & Hi0 & Hf & _).
      apply Nat2Z.inj in Hk. subst i0. congruence.
    + intros Hf. exists i, t. split; [reflexivity|]. split; [exact Hi|].
      split; [exact Hf|]. intros i' t' Hlt Hi' Hf'.
      pose proof (nth_error_In _ _ Hi') as Ht'.
      pose proof (proj1 (fits_same_telescopes data s t Hm Hnd Ht) Hf) as G.
      pose proof (proj1 (fits_same_telescopes data s t' Hm Hnd Ht') Hf') as G'.
      assert (i = i'); [|lia].
      apply (TEL_COMBINATIONS_distinct i i' t t' Hi Hi').
      intros tel. rewrite (G tel), (G' tel). reflexivity.
  - rewrite Hnone. split.
    + intros Hno.
      destruct (existsb (fun tel => negb (isin tel [1; 2; 3]))
                        (group_tel_ids data s)) eqn:E.
      * apply existsb_exists in E as (tel & Htel & Hout).
        exists tel. split; [exact Htel|]. intros Hc.
        apply isin_In in Hc. rewrite Hc in Hout. discriminate.
      * exfalso.
        assert (Hall : incl (group_tel_ids data s) [1; 2; 3]).
        { intros tel Htel. apply isin_In.
          destruct (isin tel [1; 2; 3]) eqn:I; [reflexivity|].
          assert (X : existsb (fun tel => negb (isin tel [1; 2; 3]))
                              (group_tel_ids data s) = true).
          { apply existsb_exists. exists tel. split; [exact Htel|].
            now rewrite I. }
          congruence. }
        assert (Hfit : forall t, In t (map snd TEL_COMBINATIONS) ->
                  List.length (group_tel_ids data s) = List.length t ->
                  incl (group_tel_ids data s) t -> False).
        { intros t Ht Hl Hi. apply (Hno t Ht).
          apply (fits_group_tel_ids data s t Hm). split; assumption. }
        clear Hno Hnone Hsome E.
        destruct (group_tel_ids data s) as [|a [|b [|c [|d l]]]];
          cbn [List.length] in Hsize; try lia.
        -- assert (Ha : In a [1; 2; 3]) by (apply Hall; now left).
           assert (Hb : In b [1; 2; 3]) by (apply Hall; right; now left).
           assert (Hab : a <> b).
           { intros ->. inversion Hnd as [|? ? Hn _]. apply Hn. now left. }
           cbn in Ha, Hb.
           assert (C : (a = 2 \/ a = 3) /\ (b = 2 \/ b = 3)
                       \/ (a = 1 \/ a = 2) /\ (b = 1 \/ b = 2)
                       \/ (a = 1 \/ a = 3) /\ (b = 1 \/ b = 3)) by lia.
           destruct C as [[Ca Cb] | [[Ca Cb] | [Ca Cb]]].
           ++ apply (Hfit [2; 3]); [cbn; auto | reflexivity|].
              intros x [<- | [<- | []]]; cbn; lia.
           ++ apply (Hfit [1; 2]); [cbn; auto | reflexivity|].
              intros x [<- | [<- | []]]; cbn; lia.
           ++ apply (Hfit [1; 3]); [cbn; auto | reflexivity|].
              intros x [<- | [<- | []]]; cbn; lia.
        -- apply (Hfit [1; 2; 3]); [cbn; auto 6 | reflexivity | exact Hall].
    + intros (tel & Htel & Hout) t Ht Hf.
      apply (fits_group_tel_ids data s t Hm) in Hf as [_ Hincl].
      destruct (TEL_COMBINATIONS_in t Ht) as [_ H123].
      apply Hout, H123, Hincl, Htel.
Qed.

Lemma stereo_events_same_telescopes_witness :
  let r1 :=
    {| shower_obs_id := 5093; shower_event_id := 1; true_alt := 1 # 2;
       true_az := 3 # 4; shower_tel_id := 1; shower_params := [] |} in
  let r2 :=
    {| shower_obs_id := 5093; shower_event_id := 1; true_alt := 1 # 2;
       true_az := 3 # 4; shower_tel_id := 4; shower_params := [] |} in
  let r3 :=
    {| shower_obs_id := 5093; shower_event_id := 2; true_alt := 1 # 2;
       true_az := 3 # 4; shower_tel_id := 2; shower_params := [] |} in
  let s1 := {| shower := r1; multiplicity := 2; combo_type := None |} in
  let s2 := {| shower := r2; multiplicity := 2; combo_type := None |} in
  get_stereo_events [r1; r2; r3] None = Ok [s1; s2]
  /\ NoDup (group_tel_ids [r1; r2; r3] s1)
  /\ exists tel, In tel (group_tel_ids [r1; r2; r3] s1) /\ ~ In tel [1; 2; 3].
Proof.
  intros r1 r2 r3 s1 s2.
  assert (Hrun : get_stereo_events [r1; r2; r3] None = Ok [s1; s2])
    by (vm_compute; reflexivity).
  assert (Hnd : NoDup (group_tel_ids [r1; r2; r3] s1)).
  { change (NoDup [1; 4]). constructor; [intros [E | []]; discriminate|].
    constructor; [intros [] | constructor]. }
  split; [exact Hrun|]. split; [exact Hnd|].
  destruct (stereo_events_same_telescopes [r1; r2; r3] None [s1; s2] s1 Hrun
              (or_introl eq_refl) Hnd) as [_ H].
  exact (proj1 H eq_refl).
Defined.

(** ** Training tables ([load_train_data_file], lines 480-517)

    [event_data] is the table read from the DL1-stereo file, indexed and
    sorted as at lines 481-482; its multiplicity column is the one stored
    in the file.  The off-axis cuts are given as the tests they perform
    on a row.  The columns true_event_class and event_weight, set at
    lines 492-495, take no part in the separation. *)

Definition apply_cut (cut : option (stereo_event -> bool))
    (event_data : list stereo_event) : list stereo_event :=
  match cut with
  | Some test => filter test event_data
  | None => event_data
  end.

(** Lines 500-517: the dictionary [data_train], in insertion order. *)
Fixpoint data_train (combos : list (string * list Z))
    (event_data : list stereo_event) : list (string * list stereo_event) :=
  match combos with
  | [] => []
  | (tel_combo, tel_ids) :: combos' =>
      let df_events := combo_events tel_ids event_data in
      let n_events := n_groups (map shower df_events) in
      if 0 <? n_events
      then (tel_combo, df_events) :: data_train combos' event_data
      else data_train combos' event_data
  end.

Definition load_train_data_file (event_data : list stereo_event)
    (offaxis_min offaxis_max : option (stereo_event -> bool))
    : list (string * list stereo_event) :=
  let event_data := apply_cut offaxis_min event_data in
  let event_data := apply_cut offaxis_max event_data in
  data_train TEL_COMBINATIONS event_data.

Lemma combo_events_shower tel_ids stereo :
  let n := Z.of_nat (List.length tel_ids) in
  let df := map shower
                (filter (fun s => isin (shower_tel_id (shower s)) tel_ids
                                  && (multiplicity s =? n)) stereo) in
  map shower (combo_events tel_ids stereo)
  = filter (fun r => group_size df r =? n) df.
Proof.
  cbv zeta. unfold combo_events.
  rewrite (filter_map_swap _ (fun s => multiplicity s =? _)).
  cbn [multiplicity]. rewrite map_map. cbn [shower].
  rewrite (filter_map_swap shower
             (fun r => group_size _ r =? Z.of_nat (List.length tel_ids))).
  reflexivity.
Qed.

Lemma group_size_map_filter (p : stereo_event -> bool) stereo r :
  group_size (map shower (filter p stereo)) r <= group_size (map shower stereo) r.
Proof.
  unfold group_size. rewrite !(filter_map_swap shower), !length_map.
  apply inj_le.
  apply (filter_filter_length_le p (fun x => same_shower r (shower x))).
Qed.

(** The rows that the selection of a combination returns. *)
Lemma combo_events_row tel_ids stereo s :
  In s (combo_events tel_ids stereo) ->
  let n := Z.of_nat (List.length tel_ids) in
  In (shower_tel_id (shower s)) tel_ids
  /\ multiplicity s = n
  /\ group_size (map shower (combo_events tel_ids stereo)) (shower s) = n
  /\ n <= group_size (map shower stereo) (shower s)
  /\ exists s0, In s0 stereo /\ shower s0 = shower s /\ multiplicity s0 = n
                /\ combo_type s0 = combo_type s.
Proof.
  intros Hin. cbv zeta.
  pose proof (combo_events_shower tel_ids stereo) as Hsh. cbv zeta in Hsh.
  rewrite Hsh. unfold combo_events in Hin.
  set (n := Z.of_nat (List.length tel_ids)) in *.
  set (D := fun s => isin (shower_tel_id (shower s)) tel_ids
                     && (multiplicity s =? n)) in *.
  set (df := map shower (filter D stereo)) in *.
  apply filter_In in Hin as [Hin Hn]. apply Z.eqb_eq in Hn.
  apply in_map_iff in Hin as (s0 & <- & H0).
  cbn [shower multiplicity combo_type] in *.
  apply filter_In in H0 as [H0 HD]. apply andb_true_iff in HD as [Htel Hm].
  apply isin_In in Htel. apply Z.eqb_eq in Hm.
  split; [exact Htel|]. split; [exact Hn|].
  split; [|split].
  - rewrite group_size_filter; [exact Hn | | now apply Z.eqb_eq].
    intros a b Hab. now rewrite (group_size_same df a b Hab).
  - rewrite <- Hn. apply group_size_map_filter.
  - exists s0. repeat split; assumption.
Qed.

Lemma data_train_spec combos event_data tel_combo df :
  In (tel_combo, df) (data_train combos event_data)
  <-> exists tel_ids,
        In (tel_combo, tel_ids) combos
        /\ df = combo_events tel_ids event_data /\ df <> [].
Proof.
  induction combos as [|[c t] combos IH]; cbn [data_train].
  - split; [intros [] | intros (? & [] & _)].
  - assert (Hpos : ((0 <? n_groups (map shower (combo_events t event_data))) = true)
                   <-> combo_events t event_data <> []).
    { rewrite Z.ltb_lt. split.
      - intros H E. rewrite E in H. cbn in H. lia.
      - intros H. apply n_groups_pos. intros E. apply H.
        now apply map_eq_nil in E. }
    destruct (0 <? n_groups (map shower (combo_events t event_data))) eqn:E.
    + cbn [In]. rewrite IH. split.
      * intros [H | (t' & Hin & Hdf & Hne)].
        -- injection H as <- <-. exists t. split; [now left|].
           split; [reflexivity | now apply Hpos].
        -- exists t'. split; [now right | auto].
      * intros (t' & [H | Hin] & Hdf & Hne).
        -- injection H as <- <-. left. now rewrite Hdf.
        -- right. exists t'. auto.
    + rewrite IH. split.
      * intros (t' & Hin & Hdf & Hne). exists t'. split; [now right | auto].
      * intros (t' & [H | Hin] & Hdf & Hne).
        -- injection H as <- <-. exfalso.
           assert (X : false = true) by (apply Hpos; now rewrite <- Hdf).
           discriminate.
        -- exists t'. auto.
Qed.

(** X20.  [load_train_data_file] returns a table for exactly those
    entries of TEL_COMBINATIONS whose selection is not empty.  Each row of
    the table of an entry comes from one of its telescopes, belongs to a
    group of as many rows in the table as the entry has telescopes, and
    carries that number both as its new multiplicity and as the
    multiplicity stored in the file, which cannot exceed the number of rows
    of its event that pass the off-axis cuts. *)
Theorem load_train_tables (event_data : list stereo_event)
    (offaxis_min offaxis_max : option (stereo_event -> bool))
    (tel_combo : string) (df : list stereo_event) :
  let data := apply_cut offaxis_max (apply_cut offaxis_min event_data) in
  In (tel_combo, df) (load_train_data_file event_data offaxis_min offaxis_max)
  <-> exists tel_ids,
        In (tel_combo, tel_ids) TEL_COMBINATIONS
        /\ df = combo_events tel_ids data
        /\ df <> []
        /\ forall s, In s df ->
             let n := Z.of_nat (List.length tel_ids) in
             In (shower_tel_id (shower s)) tel_ids
             /\ multiplicity s = n
             /\ group_size (map shower df) (shower s) = n
             /\ n <= group_size (map shower data) (shower s)
             /\ exists s0, In s0 data /\ shower s0 = shower s
                           /\ multiplicity s0 = n
                           /\ combo_type s0 = combo_type s.
Proof.
  cbv zeta. unfold load_train_data_file. rewrite data_train_spec. split.
  - intros (t & Hin & Hdf & Hne). exists t.
    split; [exact Hin|]. split; [exact Hdf|]. split; [exact Hne|].
    intros s Hs. rewrite Hdf in Hs |- *.
    exact (combo_events_row t _ s Hs).
  - intros (t & Hin & Hdf & Hne & _). exists t. auto.
Qed.

(** X21.  An event all of whose rows after the off-axis cuts store a
    multiplicity larger than the number of those rows, as when a cut
    removed one of its telescopes, is in no table that
    [load_train_data_file] returns. *)
Theorem load_train_drops_incomplete (event_data : list stereo_event)
    (offaxis_min offaxis_max : option (stereo_event -> bool))
    (r : shower_event) :
  let data := apply_cut offaxis_max (apply_cut offaxis_min event_data) in
  (forall s0, In s0 data -> same_shower r (shower s0) = true ->
              group_size (map shower data) r < multiplicity s0) ->
  forall tel_combo df s,
    In (tel_combo, df) (load_train_data_file event_data offaxis_min offaxis_max) ->
    In s df ->
    same_shower r (shower s) = false.
Proof.
  cbv zeta. intros Hstale c df s Hdf Hs.
  unfold load_train_data_file in Hdf.
  apply data_train_spec in Hdf as (t & _ & -> & _).
  destruct (combo_events_row t _ s Hs) as (_ & _ & _ & Hle & s0 & H0 & Hsh & Hm & _).
  destruct (same_shower r (shower s)) eqn:E; [exfalso | reflexivity].
  rewrite <- Hsh in E. specialize (Hstale s0 H0 E).
  rewrite Hsh in E. rewrite (group_size_same _ r (shower s) E) in Hstale.
  cbv zeta in Hle. lia.
Qed.

Lemma load_train_drops_incomplete_witness :
  let row := fun e t m =>
    {| shower := {| shower_obs_id := 5093; shower_event_id := e;
                    true_alt := 1 # 2; true_az := 3 # 4;
                    shower_tel_id := t; shower_params := [] |};
       multiplicity := m; combo_type := None |} in
  let event_data := [row 1 1 3; row 1 3 3; row 2 2 2; row 2 3 2] in
  (forall s0, In s0 event_data ->
              same_shower (shower (row 1 1 3)) (shower s0) = true ->
              group_size (map shower event_data) (shower (row 1 1 3))
              < multiplicity s0)
  /\ In ("m1_m2"%string, [row 2 2 2; row 2 3 2])
        (load_train_data_file event_data None None)
  /\ same_shower (shower (row 1 1 3)) (shower (row 2 2 2)) = false.
Proof.
  intros row event_data.
  assert (Hstale : forall s0, In s0 event_data ->
            same_shower (shower (row 1 1 3)) (shower s0) = true ->
            group_size (map shower event_data) (shower (row 1 1 3))
            < multiplicity s0).
  { intros s0 [<- | [<- | [<- | [<- | []]]]] E;
      solve [reflexivity | vm_compute in E; discriminate]. }
  assert (Hin : In ("m1_m2"%string, [row 2 2 2; row 2 3 2])
                   (load_train_data_file event_data None None))
    by (left; vm_compute; reflexivity).
  split; [exact Hstale|]. split; [exact Hin|].
  exact (load_train_drops_incomplete event_data None None (shower (row 1 1 3))
           Hstale "m1_m2"%string [row 2 2 2; row 2 3 2] (row 2 2 2)
           Hin (or_introl eq_refl)).
Defined.
